(** * Verification of the NF-e audit rule engine (src/lib/audit)

    Shallow embedding of [auditXml] (index.ts), its helpers (utils.ts),
    the document parser and the identifier validators (parse.ts/br),
    and the address and fiscal-code helpers (br-ops). *)

From Stdlib Require Import Bool Arith Lia List String Ascii.
From Stdlib Require QArith Qabs Qround.
Import ListNotations.
Open Scope string_scope.
Open Scope nat_scope.
Set Warnings "-register-all".
Set Warnings "-notation-overridden".


(* ------------------------------------------------------------------ *)
(** ** JavaScript strings and characters (ASCII model) *)

Definition is_digit (c : ascii) : bool :=
  let n := nat_of_ascii c in (48 <=? n) && (n <=? 57).

(** [Number(c)] for a one-character digit string. *)
Definition digit_value (c : ascii) : option nat :=
  if is_digit c then Some (nat_of_ascii c - 48) else None.

(** [s.replace(/\D/g, '')] *)
Fixpoint only_digits (s : string) : string :=
  match s with
  | EmptyString => EmptyString
  | String c r => if is_digit c then String c (only_digits r) else only_digits r
  end.

Fixpoint all_digits (s : string) : bool :=
  match s with
  | EmptyString => true
  | String c r => is_digit c && all_digits r
  end.

(** [/^(\d)\1{n-1}$/.test(s)] for a string of digits: one repeated digit. *)
Definition repeated_digit (s : string) : bool :=
  match s with
  | EmptyString => false
  | String c r =>
      is_digit c && forallb (fun c' => Ascii.eqb c c') (list_ascii_of_string r)
  end.

Definition is_space (c : ascii) : bool :=
  let n := nat_of_ascii c in
  (n =? 32) || ((9 <=? n) && (n <=? 13)).

Fixpoint drop_leading_space (l : list ascii) : list ascii :=
  match l with
  | [] => []
  | c :: r => if is_space c then drop_leading_space r else l
  end.

(** [s.trim()] (ASCII whitespace). *)
Definition trim (s : string) : string :=
  string_of_list_ascii
    (rev (drop_leading_space (rev (drop_leading_space (list_ascii_of_string s))))).

Definition upper_ascii (c : ascii) : ascii :=
  let n := nat_of_ascii c in
  if (97 <=? n) && (n <=? 122) then ascii_of_nat (n - 32) else c.

(** [s.toUpperCase()] (ASCII letters). *)
Fixpoint to_upper (s : string) : string :=
  match s with
  | EmptyString => EmptyString
  | String c r => String (upper_ascii c) (to_upper r)
  end.

(** Decimal text of a natural number, as [String(n)] / template literals. *)
Fixpoint nat_to_string_aux (fuel n : nat) (acc : string) : string :=
  match fuel with
  | O => acc
  | S f =>
      let acc' := String (ascii_of_nat (48 + n mod 10)) acc in
      if n <? 10 then acc' else nat_to_string_aux f (n / 10) acc'
  end.

Definition nat_to_string (n : nat) : string := nat_to_string_aux (S n) n "".

(** [s[i]] *)
Definition char_at (s : string) (i : nat) : option ascii := String.get i s.

(* ------------------------------------------------------------------ *)
(** ** [calcNfeKeyDV] (utils.ts) *)

Definition key_weights : list nat := [2; 3; 4; 5; 6; 7; 8; 9].

(** The loop [for (i = key43.length - 1; i >= 0; i--)], run over the
    characters from the right: [sum += d * weights[wIdx]] and
    [wIdx = (wIdx + 1) % weights.length]; [None] is the early
    [return null] on a non-finite digit. *)
Fixpoint dv_loop (rev_chars : list ascii) (sum wIdx : nat) : option nat :=
  match rev_chars with
  | [] => Some sum
  | c :: r =>
      match digit_value c with
      | None => None
      | Some d =>
          dv_loop r (sum + d * nth wIdx key_weights 0)
                  ((wIdx + 1) mod List.length key_weights)
      end
  end.

Definition calcNfeKeyDV (key43or44 : string) : option nat :=
  let digits := only_digits key43or44 in
  let key43 := if String.length digits =? 44 then substring 0 43 digits else digits in
  if negb (String.length key43 =? 43) then None
  else
    match dv_loop (rev (list_ascii_of_string key43)) 0 0 with
    | None => None
    | Some sum =>
        let md := sum mod 11 in
        let dv := 11 - md in
        if (dv =? 10) || (dv =? 11) then Some 0 else Some dv
    end.

(* ------------------------------------------------------------------ *)
(** ** [isValidCPF] and [isValidCNPJ] *)

Definition num_at (s : string) (i : nat) : nat :=
  match char_at s i with
  | Some c => match digit_value c with Some d => d | None => 0 end
  | None => 0
  end.

(** [for (let i = 0; i < n; i++) sum += Number(s[i]) * w i] *)
Fixpoint weighted_sum (s : string) (w : nat -> nat) (n : nat) : nat :=
  match n with
  | O => 0
  | S k => weighted_sum s w k + num_at s k * w k
  end.

Definition mod11_digit (sum : nat) : nat :=
  let md := sum mod 11 in if md <? 2 then 0 else 11 - md.

Definition isValidCPF (cpfRaw : string) : bool :=
  let cpf := only_digits cpfRaw in
  if negb (String.length cpf =? 11) then false
  else if repeated_digit cpf then false
  else
    let calc baseLen := mod11_digit (weighted_sum cpf (fun i => baseLen + 1 - i) baseLen) in
    let d1 := calc 9 in
    let d2 := mod11_digit (weighted_sum cpf (fun i => 11 - i) 10) in
    (num_at cpf 9 =? d1) && (num_at cpf 10 =? d2).

Definition cnpj_weights1 : list nat := [5;4;3;2;9;8;7;6;5;4;3;2].
Definition cnpj_weights2 : list nat := [6;5;4;3;2;9;8;7;6;5;4;3;2].

Definition calcDigit (base : string) (weights : list nat) : nat :=
  mod11_digit (weighted_sum base (fun i => nth i weights 0) (List.length weights)).

Definition isValidCNPJ (cnpjRaw : string) : bool :=
  let cnpj := only_digits cnpjRaw in
  if negb (String.length cnpj =? 14) then false
  else if repeated_digit cnpj then false
  else
    let base12 := substring 0 12 cnpj in
    let d1 := calcDigit base12 cnpj_weights1 in
    let base13 := base12 ++ nat_to_string d1 in
    let d2 := calcDigit base13 cnpj_weights2 in
    (num_at cnpj 12 =? d1) && (num_at cnpj 13 =? d2).


(* ------------------------------------------------------------------ *)
(** ** JavaScript numbers

    The audit computes with IEEE doubles. The development is generic in
    the number type: every operation the source uses is a field of
    [JSNum], and no law about them is assumed, so what is proved holds
    for doubles as well. *)

Class JSNum := {
  num : Type;
  num_add : num -> num -> num;            (* a + b *)
  num_sub : num -> num -> num;            (* a - b *)
  num_mul : num -> num -> num;            (* a * b *)
  num_div : num -> num -> num;            (* a / b *)
  math_round : num -> num;                (* Math.round *)
  math_abs : num -> num;                  (* Math.abs *)
  num_lt : num -> num -> bool;            (* a < b *)
  num_le : num -> num -> bool;            (* a <= b *)
  num_is_finite : num -> bool;            (* Number.isFinite *)
  num_truthy : num -> bool;               (* Boolean(n): not 0, not NaN *)
  num_lit : nat -> num;                   (* integer literals 0, 100 *)
  num_cent : num;                         (* the literal 0.01 *)
  num_epsilon : num;                      (* Number.EPSILON *)
  Number_of_string : string -> num;       (* Number(s), possibly NaN *)
  num_to_string : num -> string           (* String(n) *)
}.

Inductive js_error := TypeError.

(** Completion of a JavaScript computation: a value or a thrown error. *)
Inductive completion (A : Type) : Type :=
| Normal (a : A)
| Throw (e : js_error).
Arguments Normal {A} a.
Arguments Throw {A} e.

Definition bind {A B} (c : completion A) (k : A -> completion B) : completion B :=
  match c with Normal a => k a | Throw e => Throw e end.

Notation "x <- c ;; k" := (bind c (fun x => k)) (at level 61, c at next level, right associativity).

Section JS.
Context {N : JSNum}.

(** Values of the loosely typed tree produced by the XML parser. *)
Inductive jvalue : Type :=
| JUndefined
| JNull
| JBool (b : bool)
| JNum (n : num)
| JStr (s : string)
| JArr (items : list jvalue)
| JObj (fields : list (string * jvalue)).

Definition truthy (v : jvalue) : bool :=
  match v with
  | JUndefined | JNull => false
  | JBool b => b
  | JNum n => num_truthy n
  | JStr s => negb (String.eqb s "")
  | JArr _ | JObj _ => true
  end.

Fixpoint assoc (k : string) (fs : list (string * jvalue)) : option jvalue :=
  match fs with
  | [] => None
  | (k', v) :: r => if String.eqb k k' then Some v else assoc k r
  end.

(** [v?.k] (and [v.k] on a non-nullish value): the keys the audit reads
    are no properties of primitive values or arrays. *)
Definition member (v : jvalue) (k : string) : jvalue :=
  match v with
  | JObj fs => match assoc k fs with Some x => x | None => JUndefined end
  | _ => JUndefined
  end.

(** [a ?? b] *)
Definition nullish (a b : jvalue) : jvalue :=
  match a with JUndefined | JNull => b | _ => a end.

(** [String(v)]; arrays print as [Array.prototype.join]. *)
Fixpoint js_String (v : jvalue) : string :=
  match v with
  | JUndefined => "undefined"
  | JNull => "null"
  | JBool true => "true"
  | JBool false => "false"
  | JNum n => num_to_string n
  | JStr s => s
  | JArr l =>
      (fix join (l : list jvalue) : string :=
         match l with
         | [] => ""
         | [x] => match x with JUndefined | JNull => "" | _ => js_String x end
         | x :: r =>
             (match x with JUndefined | JNull => "" | _ => js_String x end)
               ++ "," ++ join r
         end) l
  | JObj _ => "[object Object]"
  end.

(** [s.replace(',', '.')]: the first comma only. *)
Fixpoint replace_first_comma (s : string) : string :=
  match s with
  | EmptyString => EmptyString
  | String c r =>
      if Ascii.eqb c ","%char then String "."%char r
      else String c (replace_first_comma r)
  end.

(** [toNumber] (utils.ts) *)
Definition toNumber (v : jvalue) : option num :=
  match v with
  | JUndefined | JNull => None
  | JNum n => if num_is_finite n then Some n else None
  | _ =>
      let s := replace_first_comma (trim (js_String v)) in
      if String.eqb s "" then None
      else
        let n := Number_of_string s in
        if num_is_finite n then Some n else None
  end.

(** [round2] (utils.ts) *)
Definition round2 (n : num) : num :=
  num_div (math_round (num_mul (num_add n num_epsilon) (num_lit 100))) (num_lit 100).

(** [path.split('.')] *)
Fixpoint split_dot (s : string) : list string :=
  match s with
  | EmptyString => [EmptyString]
  | String c r =>
      if Ascii.eqb c "."%char then EmptyString :: split_dot r
      else match split_dot r with
           | [] => [String c EmptyString]
           | w :: ws => String c w :: ws
           end
  end.

(** One step of the [reduce] in [get]:
    [acc && key in acc ? acc[key] : undefined]. The [in] operator
    throws a [TypeError] when its right operand is not an object. *)
Definition get_step (acc : jvalue) (key : string) : completion jvalue :=
  if truthy acc then
    match acc with
    | JObj fs => match assoc key fs with
                 | Some x => Normal x
                 | None => Normal JUndefined
                 end
    | JArr _ => Normal JUndefined
    | _ => Throw TypeError
    end
  else Normal JUndefined.

Fixpoint get_path (acc : jvalue) (keys : list string) : completion jvalue :=
  match keys with
  | [] => Normal acc
  | k :: ks => a <- get_step acc k ;; get_path a ks
  end.

(** [get] (utils.ts) *)
Definition get (obj : jvalue) (path : string) : completion jvalue :=
  get_path obj (split_dot path).

(** [asArray] (utils.ts) *)
Definition asArray (v : jvalue) : list jvalue :=
  match v with
  | JUndefined | JNull => []
  | JArr l => l
  | _ => [v]
  end.

(** [safeString] (utils.ts) *)
Definition safeString (v : jvalue) : string :=
  match v with JUndefined | JNull => "" | _ => js_String v end.

Fixpoint take_digits (n : nat) (s : string) : option string :=
  match n with
  | O => Some EmptyString
  | S k =>
      match s with
      | String c r =>
          if is_digit c then
            match take_digits k r with
            | Some t => Some (String c t)
            | None => None
            end
          else None
      | EmptyString => None
      end
  end.

(** [s.match(/NFe(\d{44})/)?.[1]]: leftmost match. *)
Fixpoint match_nfe_id (s : string) : option string :=
  match s with
  | EmptyString => None
  | String c r =>
      let here :=
        if String.prefix "NFe" s then take_digits 44 (substring 3 (String.length s - 3) s)
        else None in
      match here with
      | Some k => Some k
      | None => match_nfe_id r
      end
  end.

(** [extractAccessKeyFromInfNFeId] (utils.ts) *)
Definition extractAccessKeyFromInfNFeId (id : jvalue) : option string :=
  match_nfe_id (trim (js_String (nullish id (JStr "")))).

End JS.

(* ------------------------------------------------------------------ *)
(** ** Findings and reports (types.ts) *)

Inductive Severity := SevError | SevWarning | SevInfo.

Definition severity_eqb (a b : Severity) : bool :=
  match a, b with
  | SevError, SevError | SevWarning, SevWarning | SevInfo, SevInfo => true
  | _, _ => false
  end.

Record Finding := mkFinding {
  severity : Severity;
  code : string;
  title : string;
  message : string;
  path : option string;
  hint : option string
}.

Section Audit.
Context {N : JSNum}.

Record Totals := mkTotals {
  t_vProd : option num; t_vDesc : option num; t_vFrete : option num;
  t_vSeg : option num; t_vOutro : option num; t_vNF : option num
}.

Record Sums := mkSums {
  s_vProd : num; s_vDesc : num; s_vFrete : num; s_vSeg : num; s_vOutro : num
}.

Record Meta := mkMeta {
  itemsCount : nat;
  hasNfeProc : bool;
  accessKey : option string;
  totals : option Totals;
  sums : option Sums
}.

Record Summary := mkSummary { errors : nat; warnings : nat; infos : nat }.

Record AuditResult := mkAuditResult {
  ok : bool;
  meta : Meta;
  summary : Summary;
  findings : list Finding
}.

(* ------------------------------------------------------------------ *)
(** ** [parseNFeXml] (parse.ts), after [parser.parse(xml)] *)

Record ParsedNFe := mkParsedNFe {
  p_raw : jvalue;
  p_hasNfeProc : bool;
  p_accessKey : option string;
  p_infNFe : jvalue;
  p_det : list jvalue;
  p_totals : jvalue;
  p_ide : jvalue;
  p_emit : jvalue;
  p_dest : jvalue
}.

Definition parseNFe_tree (raw : jvalue) : ParsedNFe :=
  let nfeProc := member raw "nfeProc" in
  let NFe := nullish (member nfeProc "NFe") (member raw "NFe") in
  let infNFe := member NFe "infNFe" in
  let hasNfeProc := truthy nfeProc in
  let infNFeId := member infNFe "@_Id" in
  let fromId := extractAccessKeyFromInfNFeId infNFeId in
  let fromProt :=
    substring 0 44
      (only_digits (safeString
         (member (member (member (member raw "nfeProc") "protNFe") "infProt") "chNFe"))) in
  let key := match fromId with Some k => k | None => fromProt end in
  let accessKey := if String.eqb key "" then None else Some key in
  let det := asArray (member infNFe "det") in
  mkParsedNFe raw hasNfeProc accessKey infNFe det
    (member (member infNFe "total") "ICMSTot")
    (member infNFe "ide") (member infNFe "emit") (member infNFe "dest").

(** The XML library ([new XMLParser({...}).parse]) is not part of this
    repository: [parseNFeXml] is taken relative to any parse function. *)
Definition parseNFeXml (XMLParser_parse : string -> completion jvalue) (xml : string)
  : completion ParsedNFe :=
  raw <- XMLParser_parse xml ;; Normal (parseNFe_tree raw).

(* ------------------------------------------------------------------ *)
(** ** [InputSchema.safeParse] (zod: [z.object({ xml: z.string().min(10, ...) })]) *)

Record ZodIssue := mkZodIssue { issue_path : list string; issue_message : string }.

Definition zod_type_name (v : jvalue) : string :=
  match v with
  | JUndefined => "undefined" | JNull => "null" | JBool _ => "boolean"
  | JNum _ => "number" | JStr _ => "string" | JArr _ => "array" | JObj _ => "object"
  end.

Definition InputSchema_safeParse (input : jvalue) : list ZodIssue + string :=
  match input with
  | JObj _ =>
      match member input "xml" with
      | JStr s =>
          if 10 <=? String.length s then inr s
          else inl [mkZodIssue ["xml"] "XML vazio ou muito curto"]
      | JUndefined => inl [mkZodIssue ["xml"] "Required"]
      | v => inl [mkZodIssue ["xml"] ("Expected string, received " ++ zod_type_name v)]
      end
  | JUndefined => inl [mkZodIssue [] "Required"]
  | v => inl [mkZodIssue [] ("Expected object, received " ++ zod_type_name v)]
  end.

Fixpoint join_dot (l : list string) : string :=
  match l with
  | [] => ""
  | [x] => x
  | x :: r => x ++ "." ++ join_dot r
  end.

Definition input_invalid_finding (issue : ZodIssue) : Finding :=
  let p := join_dot (issue_path issue) in
  mkFinding SevError "INPUT_INVALID" "Entrada inválida" (issue_message issue)
    (Some (if String.eqb p "" then "xml" else p))
    (Some "Cole o XML completo da NF-e (conteúdo do arquivo .xml).").

Definition xml_parse_error_finding : Finding :=
  mkFinding SevError "XML_PARSE_ERROR" "XML inválido"
    "Não foi possível ler o XML (provável erro de formatação)."
    None
    (Some "Verifique se o XML está completo e bem formatado (tags fechadas, sem caracteres quebrados).").

Definition infnfe_missing_finding : Finding :=
  mkFinding SevError "INFNFE_MISSING" "Estrutura não encontrada"
    "Não encontrei NFe.infNFe no XML."
    (Some "NFe.infNFe")
    (Some "Confirme se este XML é de NF-e (modelo 55) e se contém a estrutura padrão (nfeProc/NFe/infNFe).").

(** [parsed.det.length === 0] *)
Definition items_empty_rule (p : ParsedNFe) : list Finding :=
  if List.length (p_det p) =? 0 then
    [mkFinding SevError "ITEMS_EMPTY" "Sem itens" "A NF-e não possui itens (det)."
       (Some "NFe.infNFe.det")
       (Some "Verifique se o XML está completo. Uma NF-e válida deve conter ao menos 1 item.")]
  else [].

Definition key_not_found_finding : Finding :=
  mkFinding SevWarning "ACCESS_KEY_NOT_FOUND" "Chave de acesso não encontrada"
    "Não consegui extrair a chave de acesso (infNFe.@Id ou protNFe.infProt.chNFe)."
    None (Some "Se for possível, use o XML com nfeProc (com protocolo).").

Definition key_len_finding (len : nat) : Finding :=
  mkFinding SevWarning "ACCESS_KEY_LEN" "Chave de acesso incompleta"
    ("A chave extraída não possui 44 dígitos (encontrei " ++ nat_to_string len ++ ").")
    None (Some "Verifique se o atributo Id da infNFe está no formato NFe{44dígitos}.").

Definition key_dv_unknown_finding : Finding :=
  mkFinding SevWarning "ACCESS_KEY_DV_UNKNOWN" "Não consegui validar o DV"
    "Não foi possível calcular o dígito verificador da chave." None None.

Definition key_mismatch_finding (dvIn dvCalc : nat) : Finding :=
  mkFinding SevError "ACCESS_KEY_DV_MISMATCH" "Chave com DV inválido"
    ("DV da chave parece incorreto. Informado: " ++ nat_to_string dvIn
       ++ ", calculado: " ++ nat_to_string dvCalc ++ ".")
    None
    (Some "Se a chave foi digitada/alterada manualmente, gere novamente a partir dos dados originais.").

Definition key_ok_finding : Finding :=
  mkFinding SevInfo "ACCESS_KEY_OK" "Chave de acesso OK" "Chave de acesso com DV válido." None None.

(** Regra: chave de acesso e DV (index.ts lines 80-126); [ak] is
    [parsed.accessKey], tested for truthiness. *)
Definition access_key_rule (ak : option string) : list Finding :=
  match ak with
  | Some k =>
      if String.eqb k "" then [key_not_found_finding]
      else
      let key := only_digits k in
      if negb (String.length key =? 44) then [key_len_finding (String.length key)]
      else
        let dvIn := num_at key 43 in
        match calcNfeKeyDV key with
        | None => [key_dv_unknown_finding]
        | Some dvCalc =>
            if negb (dvCalc =? dvIn) then [key_mismatch_finding dvIn dvCalc]
            else [key_ok_finding]
        end
  | None => [key_not_found_finding]
  end.

(** Regra: campos essenciais (ide/emit/dest). *)
Definition essential_rule (p : ParsedNFe) : list Finding :=
  (if negb (truthy (p_ide p)) then
     [mkFinding SevError "IDE_MISSING" "IDE ausente" "Não encontrei ide dentro de infNFe."
        (Some "NFe.infNFe.ide") None] else [])
  ++ (if negb (truthy (p_emit p)) then
        [mkFinding SevError "EMIT_MISSING" "Emitente ausente" "Não encontrei emit dentro de infNFe."
           (Some "NFe.infNFe.emit") None] else [])
  ++ (if negb (truthy (p_dest p)) then
        [mkFinding SevWarning "DEST_MISSING" "Destinatário ausente"
           "Não encontrei dest dentro de infNFe (em algumas operações pode existir, mas geralmente é obrigatório)."
           (Some "NFe.infNFe.dest") None] else []).

Definition doc_kind (isCnpj : bool) : string := if isCnpj then "CNPJ" else "CPF".

(** [String(doc).replace(/\D/g, '').length === 14] and the validator it selects. *)
Definition doc_is_cnpj (doc : jvalue) : bool :=
  String.length (only_digits (js_String doc)) =? 14.

Definition doc_valid (doc : jvalue) : bool :=
  if doc_is_cnpj doc then isValidCNPJ (js_String doc) else isValidCPF (js_String doc).

(** Regra: CPF/CNPJ emitente/destinatário. *)
Definition doc_rule (p : ParsedNFe) : list Finding :=
  let emitCnpj := nullish (member (p_emit p) "CNPJ") (member (p_emit p) "CPF") in
  let emit_fs :=
    if truthy emitCnpj then
      let isCnpj := doc_is_cnpj emitCnpj in
      if negb (doc_valid emitCnpj) then
        [mkFinding SevError "EMIT_DOC_INVALID" "Documento do emitente inválido"
           ("O " ++ doc_kind isCnpj ++ " do emitente parece inválido.")
           (Some "NFe.infNFe.emit")
           (Some "Verifique o número e os dígitos verificadores do documento do emitente.")]
      else
        [mkFinding SevInfo "EMIT_DOC_OK" "Documento do emitente OK"
           ("Documento do emitente (" ++ doc_kind isCnpj ++ ") válido.") None None]
    else
      [mkFinding SevWarning "EMIT_DOC_MISSING" "Documento do emitente ausente"
         "Não encontrei CNPJ/CPF no emitente." (Some "NFe.infNFe.emit.CNPJ")
         (Some "O emitente deve ter CNPJ (ou CPF em casos específicos).")] in
  let destDoc := nullish (member (p_dest p) "CNPJ") (member (p_dest p) "CPF") in
  let dest_fs :=
    if truthy (p_dest p) then
      if truthy destDoc then
        let isCnpj := doc_is_cnpj destDoc in
        if negb (doc_valid destDoc) then
          [mkFinding SevWarning "DEST_DOC_INVALID" "Documento do destinatário suspeito"
             ("O " ++ doc_kind isCnpj ++ " do destinatário parece inválido.")
             (Some "NFe.infNFe.dest")
             (Some "Verifique o número e os dígitos verificadores do documento do destinatário.")]
        else
          [mkFinding SevInfo "DEST_DOC_OK" "Documento do destinatário OK"
             ("Documento do destinatário (" ++ doc_kind isCnpj ++ ") válido.") None None]
      else
        [mkFinding SevWarning "DEST_DOC_MISSING" "Documento do destinatário ausente"
           "Não encontrei CNPJ/CPF no destinatário." (Some "NFe.infNFe.dest.CNPJ")
           (Some "Geralmente o destinatário deve ter CNPJ/CPF, dependendo do tipo de operação.")]
    else [] in
  emit_fs ++ dest_fs.

(** [isValidCEP] (br-ops) *)
Definition isValidCEP (cepRaw : string) : bool :=
  let cep := only_digits cepRaw in
  if negb (String.length cep =? 8) then false
  else if repeated_digit cep then false
  else true.

(** [String(x ?? '')] *)
Definition str_or_empty (v : jvalue) : string := js_String (nullish v (JStr "")).

Definition uf_of (party : jvalue) (ender : string) : string :=
  to_upper (trim (str_or_empty (member (member party ender) "UF"))).

Definition cep_of (party : jvalue) (ender : string) : string :=
  trim (str_or_empty (member (member party ender) "CEP")).

(** Regra: UF emit/dest e CEP. *)
Definition uf_cep_rule (p : ParsedNFe) (ufEmit ufDest : string) : list Finding :=
  let cepEmit := cep_of (p_emit p) "enderEmit" in
  let cepDest := cep_of (p_dest p) "enderDest" in
  (if String.eqb ufEmit "" then
     [mkFinding SevWarning "EMIT_UF_MISSING" "UF do emitente ausente"
        "Não encontrei enderEmit.UF no emitente." (Some "NFe.infNFe.emit.enderEmit.UF") None]
   else [])
  ++ (if truthy (p_dest p) && String.eqb ufDest "" then
        [mkFinding SevWarning "DEST_UF_MISSING" "UF do destinatário ausente"
           "Não encontrei enderDest.UF no destinatário." (Some "NFe.infNFe.dest.enderDest.UF") None]
      else [])
  ++ (if negb (String.eqb cepEmit "") && negb (isValidCEP cepEmit) then
        [mkFinding SevWarning "EMIT_CEP_INVALID" "CEP do emitente inválido"
           "O CEP do emitente parece inválido (esperado 8 dígitos)."
           (Some "NFe.infNFe.emit.enderEmit.CEP") (Some "Informe CEP com 8 dígitos (somente números).")]
      else [])
  ++ (if truthy (p_dest p) && negb (String.eqb cepDest "") && negb (isValidCEP cepDest) then
        [mkFinding SevWarning "DEST_CEP_INVALID" "CEP do destinatário inválido"
           "O CEP do destinatário parece inválido (esperado 8 dígitos)."
           (Some "NFe.infNFe.dest.enderDest.CEP") (Some "Informe CEP com 8 dígitos (somente números).")]
      else []).

(** [if (v !== null) sum += v] *)
Definition add_present (sum : num) (v : option num) : num :=
  match v with Some x => num_add sum x | None => sum end.

Definition zero_sums : Sums :=
  mkSums (num_lit 0) (num_lit 0) (num_lit 0) (num_lit 0) (num_lit 0).

(** The accumulation loop [for (const d of itens)] (lines 283-297):
    running sums and [vProdMissing]. *)
Fixpoint sum_items (itens : list jvalue) (acc : Sums) (vProdMissing : nat)
  : completion (Sums * nat) :=
  match itens with
  | [] => Normal (acc, vProdMissing)
  | d :: r =>
      gProd <- get d "prod.vProd" ;;
      gDesc <- get d "prod.vDesc" ;;
      gFrete <- get d "prod.vFrete" ;;
      gSeg <- get d "prod.vSeg" ;;
      gOutro <- get d "prod.vOutro" ;;
      let vProd := toNumber gProd in
      let missing' := match vProd with None => S vProdMissing | Some _ => vProdMissing end in
      let acc' := mkSums (add_present (s_vProd acc) vProd)
                         (add_present (s_vDesc acc) (toNumber gDesc))
                         (add_present (s_vFrete acc) (toNumber gFrete))
                         (add_present (s_vSeg acc) (toNumber gSeg))
                         (add_present (s_vOutro acc) (toNumber gOutro)) in
      sum_items r acc' missing'
  end.

Definition round_sums (s : Sums) : Sums :=
  mkSums (round2 (s_vProd s)) (round2 (s_vDesc s)) (round2 (s_vFrete s))
         (round2 (s_vSeg s)) (round2 (s_vOutro s)).

(** [toNumber(parsed.totals?.vX)] *)
Definition declared_totals (t : jvalue) : Totals :=
  mkTotals (toNumber (member t "vProd")) (toNumber (member t "vDesc"))
           (toNumber (member t "vFrete")) (toNumber (member t "vSeg"))
           (toNumber (member t "vOutro")) (toNumber (member t "vNF")).

(** [Math.abs(diff) > 0.01] *)
Definition exceeds_cent (diff : num) : bool := num_lt num_cent (math_abs diff).

(** [x > 0] *)
Definition positive (x : num) : bool := num_lt (num_lit 0) x.

(** [(x || 0)] on a [number | null] *)
Definition or0 (x : option num) : num :=
  match x with Some n => if num_truthy n then n else num_lit 0 | None => num_lit 0 end.

Definition vprod_rule (sumVProd : num) (totVProd : option num) : list Finding :=
  match totVProd with
  | Some tot =>
      let diff := round2 (num_sub sumVProd tot) in
      if exceeds_cent diff then
        [mkFinding SevError "TOTAL_VPROD_MISMATCH" "Total de produtos não confere"
           ("Soma vProd(itens)=" ++ num_to_string sumVProd ++ " mas total vProd="
              ++ num_to_string tot ++ " (diferença " ++ num_to_string diff ++ ").")
           (Some "NFe.infNFe.total.ICMSTot.vProd")
           (Some "Revise arredondamentos e valores unitários/quantidades dos itens.")]
      else
        [mkFinding SevInfo "TOTAL_VPROD_OK" "Total de produtos OK"
           ("Soma dos itens bate com o total vProd (" ++ num_to_string tot ++ ").") None None]
  | None => []
  end.

Definition vdesc_rule (sumVDesc : num) (totVDesc : option num) : list Finding :=
  match totVDesc with
  | Some tot =>
      if positive sumVDesc then
        let diff := round2 (num_sub sumVDesc tot) in
        if exceeds_cent diff then
          [mkFinding SevWarning "TOTAL_VDESC_MISMATCH" "Desconto pode não conferir"
             ("Soma vDesc(itens)=" ++ num_to_string sumVDesc ++ " mas total vDesc="
                ++ num_to_string tot ++ " (diferença " ++ num_to_string diff ++ ").")
             (Some "NFe.infNFe.total.ICMSTot.vDesc")
             (Some "Verifique se descontos foram aplicados por item ou apenas no total.")]
        else
          [mkFinding SevInfo "TOTAL_VDESC_OK" "Total de desconto OK"
             ("Soma dos descontos dos itens bate com vDesc (" ++ num_to_string tot ++ ").")
             None None]
      else []
  | None => []
  end.

(** The vFrete, vSeg and vOutro comparisons share one shape (lines
    374-414): [field] is the name in the message, [title] and [hint] the
    texts of each block. *)
Definition expense_rule (fcode title field hint : string) (sum : num) (tot : option num)
  : list Finding :=
  match tot with
  | Some t =>
      if positive sum then
        let diff := round2 (num_sub sum t) in
        if exceeds_cent diff then
          [mkFinding SevWarning fcode title
             ("Soma " ++ field ++ "(itens)=" ++ num_to_string sum ++ " mas total " ++ field ++ "="
                ++ num_to_string t ++ " (diferença " ++ num_to_string diff ++ ").")
             (Some ("NFe.infNFe.total.ICMSTot." ++ field)) (Some hint)]
        else []
      else []
  | None => []
  end.

Definition vfrete_rule := expense_rule "TOTAL_VFRETE_MISMATCH" "Frete pode não conferir" "vFrete"
  "Verifique se o frete foi lançado nos itens ou apenas no total.".
Definition vseg_rule := expense_rule "TOTAL_VSEG_MISMATCH" "Seguro pode não conferir" "vSeg"
  "Verifique se o seguro foi lançado nos itens ou apenas no total.".
Definition voutro_rule := expense_rule "TOTAL_VOUTRO_MISMATCH" "Outras despesas pode não conferir" "vOutro"
  "Verifique se outras despesas foram lançadas nos itens ou no total.".

(** Validação simples do vNF (heurística). *)
Definition vnf_rule (t : Totals) : list Finding :=
  match t_vNF t, t_vProd t with
  | Some totVNF, Some _ =>
      let expected :=
        round2 (num_sub (num_add (num_add (num_add (or0 (t_vProd t)) (or0 (t_vFrete t)))
                                          (or0 (t_vSeg t))) (or0 (t_vOutro t)))
                        (or0 (t_vDesc t))) in
      let diff := round2 (num_sub expected totVNF) in
      if exceeds_cent diff then
        [mkFinding SevWarning "TOTAL_VNF_SUSPECT" "vNF pode estar inconsistente"
           ("Esperado vNF≈" ++ num_to_string expected ++ ", mas total vNF="
              ++ num_to_string totVNF ++ " (diferença " ++ num_to_string diff ++ ").")
           (Some "NFe.infNFe.total.ICMSTot.vNF")
           (Some "Confira a composição do total: produtos + frete/seguro/outros - desconto (e arredondamentos).")]
      else
        [mkFinding SevInfo "TOTAL_VNF_OK" "vNF consistente"
           ("vNF parece consistente com a composição (≈" ++ num_to_string expected ++ ").")
           None None]
  | _, _ => []
  end.

Definition totals_missing_finding : Finding :=
  mkFinding SevWarning "TOTALS_MISSING" "Totais ausentes" "Não encontrei total.ICMSTot no XML."
    (Some "NFe.infNFe.total.ICMSTot")
    (Some "Algumas validações de soma não poderão ser feitas sem os totais.").

Definition vprod_missing_finding (vProdMissing : nat) : Finding :=
  mkFinding SevWarning "ITEM_VPROD_MISSING" "vProd ausente em itens"
    (nat_to_string vProdMissing ++ " item(ns) sem prod.vProd.") None
    (Some "Cada item deveria ter vProd preenchido para bater com os totais.").

(** Regra: totais vs itens (lines 312-441); [totals] is
    [parsed.totals], [s] the rounded sums, [t] the declared totals. *)
Definition totals_rule (totals : jvalue) (vProdMissing : nat) (s : Sums) (t : Totals)
  : list Finding :=
  if negb (truthy totals) then [totals_missing_finding]
  else
    (if 0 <? vProdMissing then [vprod_missing_finding vProdMissing] else [])
    ++ vprod_rule (s_vProd s) (t_vProd t)
    ++ vdesc_rule (s_vDesc s) (t_vDesc t)
    ++ vfrete_rule (s_vFrete s) (t_vFrete t)
    ++ vseg_rule (s_vSeg s) (t_vSeg t)
    ++ voutro_rule (s_vOutro s) (t_vOutro t)
    ++ vnf_rule t.

(** [first2CFOP] (br-ops) *)
Definition first2CFOP (cfopRaw : jvalue) : string :=
  let s := trim (str_or_empty cfopRaw) in
  match take_digits 2 s with Some p2 => p2 | None => "" end.

Definition isInternalCfop (cfopRaw : jvalue) : bool :=
  let p2 := first2CFOP cfopRaw in String.prefix "1" p2 || String.prefix "5" p2.

Definition isInterstateCfop (cfopRaw : jvalue) : bool :=
  let p2 := first2CFOP cfopRaw in String.prefix "2" p2 || String.prefix "6" p2.

(** [`Item ${i + 1}${cProd ? ` (${cProd})` : ''}`] *)
Definition item_label (i : nat) (cProd : string) : string :=
  "Item " ++ nat_to_string (i + 1)
    ++ (if String.eqb cProd "" then "" else " (" ++ cProd ++ ")").

Definition det_path (i : nat) (field : string) : string :=
  "NFe.infNFe.det[" ++ nat_to_string i ++ "].prod." ++ field.

(** Regras por item (one iteration of lines 444-533). *)
Definition item_rule (ufEmit ufDest : string) (i : nat) (d : jvalue) : completion (list Finding) :=
  gq <- get d "prod.qCom" ;;
  gv <- get d "prod.vUnCom" ;;
  gc <- get d "prod.cProd" ;;
  let qCom := toNumber gq in
  let vUn := toNumber gv in
  let cProd := trim (str_or_empty gc) in
  let lbl := item_label i cProd in
  let q_fs :=
    match qCom with
    | Some q => if num_le q (num_lit 0) then
                  [mkFinding SevError "ITEM_QCOM_ZERO" "Quantidade inválida"
                     (lbl ++ ": qCom <= 0.") (Some (det_path i "qCom"))
                     (Some "Quantidade deve ser maior que zero.")]
                else []
    | None => []
    end in
  let v_fs :=
    match vUn with
    | Some v => if num_le v (num_lit 0) then
                  [mkFinding SevWarning "ITEM_VUN_ZERO" "Valor unitário suspeito"
                     (lbl ++ ": vUnCom <= 0.") (Some (det_path i "vUnCom"))
                     (Some "Confirme se o valor unitário está correto.")]
                else []
    | None => []
    end in
  cfop <- get d "prod.CFOP" ;;
  let cfop_fs :=
    if truthy cfop && negb (String.eqb ufEmit "") && negb (String.eqb ufDest "") then
      let same := String.eqb ufEmit ufDest in
      let internal := isInternalCfop cfop in
      let interstate := isInterstateCfop cfop in
      ((if same && interstate then
         [mkFinding SevWarning "CFOP_UF_MISMATCH" "CFOP sugere interestadual, mas UF é igual"
            (lbl ++ ": CFOP " ++ js_String cfop ++ " costuma ser interestadual, porém emit/dest são "
                 ++ ufEmit ++ "/" ++ ufDest ++ ".")
            (Some (det_path i "CFOP"))
            (Some "Confira se a operação é realmente interestadual ou se o CFOP deve ser interno.")]
       else [])
      ++ (if negb same && internal then
            [mkFinding SevWarning "CFOP_UF_MISMATCH" "CFOP sugere interno, mas UF é diferente"
               (lbl ++ ": CFOP " ++ js_String cfop ++ " costuma ser interno, porém emit/dest são "
                    ++ ufEmit ++ "/" ++ ufDest ++ ".")
               (Some (det_path i "CFOP"))
               (Some "Confira se a operação é interna ou se o CFOP deve ser interestadual.")]
          else []))%list
    else if negb (truthy cfop) then
      [mkFinding SevWarning "CFOP_MISSING" "CFOP ausente no item"
         (lbl ++ ": não encontrei prod.CFOP.") (Some (det_path i "CFOP"))
         (Some "Cada item deve ter CFOP preenchido.")]
    else [] in
  gn <- get d "prod.NCM" ;;
  let ncm := only_digits (str_or_empty gn) in
  let ncm_fs :=
    if String.eqb ncm "" then
      [mkFinding SevWarning "NCM_MISSING" "NCM ausente no item"
         (lbl ++ ": NCM não informado.") (Some (det_path i "NCM"))
         (Some "Informe o NCM do produto (geralmente 8 dígitos).")]
    else if negb (String.length ncm =? 8) then
      [mkFinding SevWarning "NCM_INVALID_LEN" "NCM com tamanho inválido"
         (lbl ++ ": NCM com " ++ nat_to_string (String.length ncm) ++ " dígitos (esperado 8).")
         (Some (det_path i "NCM"))
         (Some "Verifique se o NCM está completo (8 dígitos).")]
    else [] in
  Normal (q_fs ++ v_fs ++ cfop_fs ++ ncm_fs)%list.

Fixpoint item_rules (ufEmit ufDest : string) (i : nat) (itens : list jvalue)
  : completion (list Finding) :=
  match itens with
  | [] => Normal []
  | d :: r =>
      fs <- item_rule ufEmit ufDest i d ;;
      rest <- item_rules ufEmit ufDest (S i) r ;;
      Normal (fs ++ rest)%list
  end.

Definition count_severity (sev : Severity) (fs : list Finding) : nat :=
  List.length (filter (fun f => severity_eqb (severity f) sev) fs).

(** [summarize] (index.ts lines 558-595) *)
Definition summarize (fs : list Finding) (itemsCount : nat) (hasNfeProc : bool)
  (accessKey : option string) (totals : option Totals) (sums : option Sums) : AuditResult :=
  let errors := count_severity SevError fs in
  let warnings := count_severity SevWarning fs in
  let infos := count_severity SevInfo fs in
  mkAuditResult (errors =? 0)
    (mkMeta itemsCount hasNfeProc accessKey totals sums)
    (mkSummary errors warnings infos)
    fs.

Section WithParser.
Variable XMLParser_parse : string -> completion jvalue.

(** [auditXml] (index.ts lines 16-556). Its [try/catch] covers the call
    of [parseNFeXml] only. *)
Definition auditXml (input : jvalue) : completion AuditResult :=
  match InputSchema_safeParse input with
  | inl issues =>
      Normal (summarize (map input_invalid_finding issues) 0 false None None None)
  | inr xml =>
      match parseNFeXml XMLParser_parse xml with
      | Throw _ => Normal (summarize [xml_parse_error_finding] 0 false None None None)
      | Normal parsed =>
          if negb (truthy (p_infNFe parsed)) then
            Normal (summarize [infnfe_missing_finding] 0
                      (p_hasNfeProc parsed) (p_accessKey parsed) None None)
          else
            let ufEmit := uf_of (p_emit parsed) "enderEmit" in
            let ufDest := uf_of (p_dest parsed) "enderDest" in
            let head_fs :=
              (items_empty_rule parsed
              ++ access_key_rule (p_accessKey parsed)
              ++ essential_rule parsed
              ++ doc_rule parsed
              ++ uf_cep_rule parsed ufEmit ufDest)%list in
            acc <- sum_items (p_det parsed) zero_sums 0 ;;
            let s := round_sums (fst acc) in
            let t := declared_totals (p_totals parsed) in
            let tot_fs := totals_rule (p_totals parsed) (snd acc) s t in
            item_fs <- item_rules ufEmit ufDest 0 (p_det parsed) ;;
            Normal (summarize (head_fs ++ tot_fs ++ item_fs)%list
                      (List.length (p_det parsed)) (p_hasNfeProc parsed)
                      (p_accessKey parsed) (Some t) (Some s))
      end
  end.

End WithParser.

End Audit.

(* ------------------------------------------------------------------ *)
(** ** Derived quantities used in the statements *)

Section Derived.
Context {N : JSNum}.

(** The number of items whose [prod.vProd] is read without error and
    does not convert to a number. *)
Fixpoint vprod_missing_count (itens : list jvalue) : nat :=
  match itens with
  | [] => 0
  | d :: r =>
      (match get d "prod.vProd" with
       | Normal v => match toNumber v with None => 1 | Some _ => 0 end
       | Throw _ => 0
       end) + vprod_missing_count r
  end.

(** Codes of the access-key rule all start with [ACCESS_KEY]. *)
Definition access_key_code (c : string) : bool := String.prefix "ACCESS_KEY" c.

Definition has_code (c : string) (fs : list Finding) : bool :=
  existsb (fun f => String.eqb (code f) c) fs.

End Derived.

(* ------------------------------------------------------------------ *)
(** ** Sample documents (the trees the XML parser builds from them) *)

Section Samples.
Context {N : JSNum}.

(** A [det] element holding only text: the parser gives the string ["x"]. *)
Definition primitive_item_xml : string := "<NFe><infNFe><det>x</det></infNFe></NFe>".

Definition primitive_item_tree : jvalue :=
  JObj [("NFe", JObj [("infNFe", JObj [("det", JStr "x")])])].


Definition no_infnfe_tree : jvalue :=
  JObj [("nfeProc", JObj [("protNFe", JObj [("infProt",
    JObj [("chNFe", JStr "NFe35190843061064000183550010000000171000000017")])])])].

Definition xml_input (xml : string) : jvalue := JObj [("xml", JStr xml)].

End Samples.

(* ------------------------------------------------------------------ *)
(** ** A concrete number model for evaluating the audit

    Finite numbers are rationals; [None] stands for [NaN] and the
    infinities. Used to run the audit on concrete documents. *)
Module QModel.
Import QArith Qabs Qround.

Definition lift2 (f : Q -> Q -> Q) (a b : option Q) : option Q :=
  match a, b with Some x, Some y => Some (f x y) | _, _ => None end.

Definition qdiv (a b : option Q) : option Q :=
  match a, b with
  | Some x, Some y => if Qeq_bool y 0 then None else Some (x / y)
  | _, _ => None
  end.

Definition qlt (a b : option Q) : bool :=
  match a, b with Some x, Some y => negb (Qle_bool y x) | _, _ => false end.

Definition qle (a b : option Q) : bool :=
  match a, b with Some x, Some y => Qle_bool x y | _, _ => false end.

Fixpoint dec_parse (l : list ascii) (acc : Q) (scale : option Q) : option Q :=
  match l with
  | [] => Some acc
  | c :: r =>
      if Ascii.eqb c "."%char then
        match scale with None => dec_parse r acc (Some (1 # 10)) | Some _ => None end
      else
        match digit_value c with
        | None => None
        | Some d =>
            match scale with
            | None => dec_parse r (acc * 10 + inject_Z (Z.of_nat d)) None
            | Some sc => dec_parse r (acc + inject_Z (Z.of_nat d) * sc) (Some (sc / 10))
            end
        end
  end.

Definition z_to_string (z : Z) : string :=
  (if (z <? 0)%Z then "-" else "") ++ nat_to_string (Z.abs_nat z).

Definition q_to_string (a : option Q) : string :=
  match a with
  | Some x => if (Zpos (Qden x) =? 1)%Z then z_to_string (Qnum x)
              else z_to_string (Qnum x) ++ "/" ++ nat_to_string (Pos.to_nat (Qden x))
  | None => "NaN"
  end.

#[export] Instance QNum : JSNum := {
  num := option Q;
  num_add := lift2 Qplus;
  num_sub := lift2 Qminus;
  num_mul := lift2 Qmult;
  num_div := qdiv;
  math_round := option_map (fun x => inject_Z (Qfloor (x + (1 # 2))));
  math_abs := option_map Qabs;
  num_lt := qlt;
  num_le := qle;
  num_is_finite := fun a => match a with Some _ => true | None => false end;
  num_truthy := fun a => match a with Some x => negb (Qeq_bool x 0) | None => false end;
  num_lit := fun n => Some (inject_Z (Z.of_nat n));
  num_cent := Some (1 # 100);
  num_epsilon := Some (1 # (2 ^ 52));
  Number_of_string := fun s => dec_parse (list_ascii_of_string s) 0 None;
  num_to_string := q_to_string
}.

(** A parse function that knows the tree of one document text. *)
Definition table_parser (xml : string) (tree : jvalue) (s : string) : completion jvalue :=
  if String.eqb s xml then Normal tree else Throw TypeError.

Definition qn (z : Z) (d : positive) : jvalue := JNum (Some (z # d)).

(** One item with the given product fields, then qCom, vUnCom, CFOP and
    NCM; the parser reads numeric text as numbers. *)
Definition sample_item (prod_fields : list (string * jvalue)) : jvalue :=
  JObj [("prod", JObj (prod_fields ++ [("qCom", qn 1 1); ("vUnCom", qn 10 1);
                                       ("CFOP", qn 5102 1); ("NCM", qn 12345678 1)]))].

Definition sample_prod_xml (fields : string) : string :=
  "<det><prod>" ++ fields
    ++ "<qCom>1</qCom><vUnCom>10</vUnCom><CFOP>5102</CFOP><NCM>12345678</NCM></prod></det>".

Definition valid_id : string := "NFe35190843061064000183550010000000171000000017".

(** Discount declared on the item and in the totals, both 5.00. *)
Definition discount_match_xml : string :=
  "<NFe><infNFe Id='" ++ valid_id ++ "'>"
    ++ sample_prod_xml "<vProd>10.00</vProd><vDesc>5.00</vDesc>"
    ++ "<total><ICMSTot><vProd>10.00</vProd><vDesc>5.00</vDesc><vNF>5.00</vNF></ICMSTot></total>"
    ++ "</infNFe></NFe>".

Definition discount_match_tree : jvalue :=
  JObj [("NFe", JObj [("infNFe", JObj [
    ("@_Id", JStr valid_id);
    ("det", sample_item [("vProd", qn 10 1); ("vDesc", qn 5 1)]);
    ("total", JObj [("ICMSTot", JObj [("vProd", qn 10 1); ("vDesc", qn 5 1); ("vNF", qn 5 1)])])])])].

(** An item without [vProd], and no [total] block. *)
Definition no_totals_xml : string :=
  "<NFe><infNFe Id='" ++ valid_id ++ "'>"
    ++ sample_prod_xml "<vDesc>5.00</vDesc>" ++ "</infNFe></NFe>".

Definition no_totals_tree : jvalue :=
  JObj [("NFe", JObj [("infNFe", JObj [
    ("@_Id", JStr valid_id);
    ("det", sample_item [("vDesc", qn 5 1)])])])].

(** No [Id] on [infNFe]; the receipt carries a truncated key of 40
    digits (with a prefix, so the parser keeps it as text). *)
Definition short_key : string := "NFe3519084306106400018355001000000017100000".

Definition short_key_xml : string :=
  "<nfeProc><NFe><infNFe>" ++ sample_prod_xml "<vProd>10</vProd>"
    ++ "</infNFe></NFe><protNFe><infProt><chNFe>" ++ short_key
    ++ "</chNFe></infProt></protNFe></nfeProc>".

Definition short_key_tree : jvalue :=
  JObj [("nfeProc", JObj [
    ("NFe", JObj [("infNFe", JObj [("det", sample_item [("vProd", qn 10 1)])])]);
    ("protNFe", JObj [("infProt", JObj [("chNFe", JStr short_key)])])])].


(** One item of 10.00, CFOP 5102. *)
Definition item_10 : jvalue := sample_item [("vProd", qn 10 1)].

(** A complete document: key, [ide], emitter with CNPJ, receiver with
    CPF, both in SP, one item of 10.00 and totals that match. The
    formatted documents and CEPs are not numeric, so the parser keeps
    them as text. *)
Definition complete_xml : string :=
  "<NFe><infNFe Id='" ++ valid_id ++ "'><ide><nNF>1</nNF></ide>"
    ++ "<emit><CNPJ>11.222.333/0001-81</CNPJ><enderEmit><UF>SP</UF><CEP>20040-020</CEP></enderEmit></emit>"
    ++ "<dest><CPF>529.982.247-25</CPF><enderDest><UF>SP</UF><CEP>20040-020</CEP></enderDest></dest>"
    ++ sample_prod_xml "<vProd>10</vProd>"
    ++ "<total><ICMSTot><vProd>10</vProd><vNF>10</vNF></ICMSTot></total></infNFe></NFe>".

Definition complete_tree : jvalue :=
  JObj [("NFe", JObj [("infNFe", JObj [
    ("@_Id", JStr valid_id);
    ("ide", JObj [("nNF", qn 1 1)]);
    ("emit", JObj [("CNPJ", JStr "11.222.333/0001-81");
                   ("enderEmit", JObj [("UF", JStr "SP"); ("CEP", JStr "20040-020")])]);
    ("dest", JObj [("CPF", JStr "529.982.247-25");
                   ("enderDest", JObj [("UF", JStr "SP"); ("CEP", JStr "20040-020")])]);
    ("det", item_10);
    ("total", JObj [("ICMSTot", JObj [("vProd", qn 10 1); ("vNF", qn 10 1)])])])])].

End QModel.

(* ------------------------------------------------------------------ *)
(** ** Check-digit algorithms as the specification words them *)

(** CPF as the spec states it: weights 9..1 over the first 9 digits for
    the first check digit, weights 10..1 over the first 10 digits (the
    10th being the computed first check digit) for the second. *)
Definition cpf_spec_accepts (cpfRaw : string) : bool :=
  let cpf := only_digits cpfRaw in
  let d1 := mod11_digit (weighted_sum cpf (fun i => 9 - i) 9) in
  let d2 := mod11_digit (weighted_sum cpf (fun i => 10 - i) 9 + d1 * 1) in
  (String.length cpf =? 11) && negb (repeated_digit cpf)
  && (num_at cpf 9 =? d1) && (num_at cpf 10 =? d2).

(** CPF with the weights the source uses: 10..2 over the first 9 digits,
    11..2 over the first 10 digits (the 10th being the computed first
    check digit). *)
Definition cpf_standard_accepts (cpfRaw : string) : bool :=
  let cpf := only_digits cpfRaw in
  let d1 := mod11_digit (weighted_sum cpf (fun i => 10 - i) 9) in
  let d2 := mod11_digit (weighted_sum cpf (fun i => 11 - i) 9 + d1 * 2) in
  (String.length cpf =? 11) && negb (repeated_digit cpf)
  && (num_at cpf 9 =? d1) && (num_at cpf 10 =? d2).

Definition digits_of (s : string) : list nat :=
  map (fun c => nat_of_ascii c - 48) (list_ascii_of_string s).

(** Weighted sum over digits listed from the right, the [j]-th from the
    right weighted [2 + j mod 8] (weights cycling 2,3,...,9). *)
Fixpoint key_sum_spec (rev_digits : list nat) (j : nat) : nat :=
  match rev_digits with
  | [] => 0
  | d :: r => d * (2 + j mod 8) + key_sum_spec r (S j)
  end.

(** Access-key check digit as the spec states it, from the first 43
    digits: [dv = 11 - (sum mod 11)], and 0 when [dv] is 10 or 11. *)
Definition nfe_key_dv_spec (key43 : string) : nat :=
  let sum := key_sum_spec (rev (digits_of key43)) 0 in
  let dv := 11 - sum mod 11 in
  if (dv =? 10) || (dv =? 11) then 0 else dv.

(* ------------------------------------------------------------------ *)
(** ** [onlyLetters] and [cfopExpectedByUf] (br-ops) *)

Section BrOps.
Context {N : JSNum}.





End BrOps.

(* ------------------------------------------------------------------ *)
(** ** The API route (app/api/audit/route.ts) *)

Section Route.
Context {N : JSNum}.

Record Response := mkResponse { status : nat; response_body : AuditResult }.

(** The report of the [catch] branch. *)
Definition server_error_result : AuditResult :=
  mkAuditResult false (mkMeta 0 false None None None) (mkSummary 1 0 0)
    [mkFinding SevError "SERVER_ERROR" "Erro no servidor" "Falha ao processar a requisição." None None].

(** [POST]: [body] is the outcome of [await req.json()], [None] when it
    rejects (a body that is not JSON); the [try] covers that call and
    [auditXml]. *)
Definition POST (XMLParser_parse : string -> completion jvalue) (body : option jvalue) : Response :=
  match body with
  | None => mkResponse 500 server_error_result
  | Some b =>
      match auditXml XMLParser_parse b with
      | Normal result => mkResponse 200 result
      | Throw _ => mkResponse 500 server_error_result
      end
  end.

End Route.

(* ------------------------------------------------------------------ *)
(** ** CSV export of the batch table (app/auditar/page.tsx) *)

Section BatchExport.
Context {N : JSNum}.

Definition dquote : ascii := ascii_of_nat 34.
Definition newline : ascii := ascii_of_nat 10.

(** [s.replace(/Q/g, QQ)], Q being the double quote: every quote doubled. *)
Fixpoint double_quotes (s : string) : string :=
  match s with
  | EmptyString => EmptyString
  | String c r =>
      if Ascii.eqb c dquote then String dquote (String dquote (double_quotes r))
      else String c (double_quotes r)
  end.

(** [/[Q,\n]/.test(s)], Q being the double quote. *)
Fixpoint needs_quotes (s : string) : bool :=
  match s with
  | EmptyString => false
  | String c r =>
      Ascii.eqb c dquote || Ascii.eqb c ","%char || Ascii.eqb c newline || needs_quotes r
  end.

(** The body of [csvEscape] after [const s = String(v ?? '')]. *)
Definition csvEscape_string (s : string) : string :=
  if needs_quotes s then String dquote (double_quotes s ++ String dquote EmptyString) else s.

(** [csvEscape] *)
Definition csvEscape (v : jvalue) : string := csvEscape_string (js_String (nullish v (JStr ""))).

(** [BatchRow]: [result] is the report the API sent back. *)
Record BatchRow := mkBatchRow {
  fileName : string; size : nat; result : option AuditResult; error : option string
}.

Definition csv_headers : list string :=
  ["arquivo"; "ok"; "erros"; "alertas"; "infos"; "chave"; "emitente"; "destinatario";
   "nNF"; "serie"; "dhEmi"; "vNF"].

(** The values [String(x ?? '')] that [exportBatchCsv] escapes for one
    row. A count prints as its decimal text. The report's [meta] is built
    by [summarize], which sets none of [emitName], [destName], [nNF],
    [serie], [dhEmi] and [vNF]: they read [undefined] and give [''].  *)
Definition batch_cells (r : BatchRow) : list string :=
  let cnt (f : Summary -> nat) :=
    match result r with Some res => nat_to_string (f (summary res)) | None => "" end in
  [fileName r;
   match result r with Some res => if ok res then "OK" else "NAO_OK" | None => "ERRO" end;
   cnt errors; cnt warnings; cnt infos;
   match result r with
   | Some res => match accessKey (meta res) with Some k => k | None => "" end
   | None => ""
   end;
   ""; ""; ""; ""; ""; ""].

(** The text of the [Blob] that [exportBatchCsv] downloads:
    [lines.join('\n')], the header line first. *)
Definition exportBatchCsv (batchRows : list BatchRow) : string :=
  String.concat (String newline EmptyString)
    (String.concat "," csv_headers
       :: map (fun r => String.concat "," (map csvEscape_string (batch_cells r))) batchRows).

End BatchExport.

(* ------------------------------------------------------------------ *)
(** ** Auxiliary notions for the statements *)

(** A CSV reader (RFC 4180 quoting, records separated by a line feed):
    [AtStart] begins a field, [InPlain] is inside an unquoted field,
    [InQuoted] inside a quoted one, [AfterQuote] just after a quote in a
    quoted field. *)
Inductive csv_state := AtStart | InPlain | InQuoted | AfterQuote.

Fixpoint csv_lex (s : string) (st : csv_state) (field : list ascii) (row : list string)
  (rows : list (list string)) : option (list (list string)) :=
  let fld := string_of_list_ascii (rev field) in
  match s with
  | EmptyString =>
      match st with
      | InQuoted => None
      | _ => Some (rev (rev (fld :: row) :: rows))
      end
  | String c r =>
      match st with
      | InQuoted =>
          if Ascii.eqb c dquote then csv_lex r AfterQuote field row rows
          else csv_lex r InQuoted (c :: field) row rows
      | _ =>
          if Ascii.eqb c ","%char then csv_lex r AtStart [] (fld :: row) rows
          else if Ascii.eqb c newline then csv_lex r AtStart [] [] (rev (fld :: row) :: rows)
          else
            match st with
            | AtStart =>
                if Ascii.eqb c dquote then csv_lex r InQuoted [] row rows
                else csv_lex r InPlain [c] row rows
            | InPlain => if Ascii.eqb c dquote then None else csv_lex r InPlain (c :: field) row rows
            | AfterQuote =>
                if Ascii.eqb c dquote then csv_lex r InQuoted (dquote :: field) row rows else None
            | InQuoted => None
            end
      end
  end.

Definition csv_read (s : string) : option (list (list string)) := csv_lex s AtStart [] [] [].

(** [s] with its [i]-th character replaced by [c]. *)
Fixpoint set_char (s : string) (i : nat) (c : ascii) : string :=
  match s, i with
  | EmptyString, _ => EmptyString
  | String _ r, O => String c r
  | String c0 r, S k => String c0 (set_char r k c)
  end.


(** The codes of the findings that [auditXml] emits as errors. *)
Definition error_codes : list string :=
  ["INPUT_INVALID"; "XML_PARSE_ERROR"; "INFNFE_MISSING"; "ITEMS_EMPTY"; "ACCESS_KEY_DV_MISMATCH";
   "IDE_MISSING"; "EMIT_MISSING"; "EMIT_DOC_INVALID"; "TOTAL_VPROD_MISMATCH"; "ITEM_QCOM_ZERO"].


(** The codes of the per-item findings, each with the [prod] field its
    path ends in. *)
Definition item_codes : list (string * string) :=
  [("ITEM_QCOM_ZERO", "qCom"); ("ITEM_VUN_ZERO", "vUnCom"); ("CFOP_UF_MISMATCH", "CFOP");
   ("CFOP_MISSING", "CFOP"); ("NCM_MISSING", "NCM"); ("NCM_INVALID_LEN", "NCM")].


(** Every error of [fs] has one of the codes of [error_codes]. *)
Definition error_codes_ok (fs : list Finding) : Prop :=
  forall f, In f fs -> severity f = SevError -> In (code f) error_codes.

(** What may follow a CSV field: nothing, a comma or a line feed. *)
Definition csv_terminated (l : string) : Prop :=
  l = EmptyString \/ exists l', l = String ","%char l' \/ l = String newline l'.

(** How [csv_lex] goes on after a completed record [fields], before the
    rest [l] (empty, or a line feed and the next records). *)
Definition row_end (l : string) (fields : list string) (rows : list (list string))
  : option (list (list string)) :=
  match l with
  | EmptyString => Some (rev (fields :: rows))
  | String _ l' => csv_lex l' AtStart [] [] (fields :: rows)
  end.

(* ------------------------------------------------------------------ *)
(** ** The findings list of the page (app/auditar/page.tsx, [filtered]) *)

(** The [Severity | 'all'] of the tab. *)
Inductive SeverityFilter := FilterAll | FilterSev (s : Severity).

(** [f.severity] as text. *)
Definition severity_name (s : Severity) : string :=
  match s with SevError => "error" | SevWarning => "warning" | SevInfo => "info" end.

(** [hay.includes(q)] *)
Fixpoint includes (hay q : string) : bool :=
  String.prefix q hay || match hay with EmptyString => false | String _ r => includes r q end.

(** [[f.severity, f.code, f.title, f.message, f.path ?? '', f.hint ?? ''].join(' ')] *)
Definition finding_hay (f : Finding) : string :=
  String.concat " " [severity_name (severity f); code f; title f; message f;
                     match path f with Some p => p | None => "" end;
                     match hint f with Some h => h | None => "" end].

(** [filtered] (the [useMemo] of the single-file view); [result] is the
    report on screen, and [toLowerCase] the built-in
    [String.prototype.toLowerCase], which is not part of this
    repository. *)
Definition filtered {N : JSNum} (toLowerCase : string -> string) (result : option AuditResult)
  (filter : SeverityFilter) (query : string) : list Finding :=
  match result with
  | None => []
  | Some res =>
      let base := match filter with
                  | FilterAll => findings res
                  | FilterSev s => List.filter (fun f => severity_eqb (severity f) s) (findings res)
                  end in
      let q := toLowerCase (trim query) in
      if String.eqb q "" then base
      else List.filter (fun f => includes (toLowerCase (finding_hay f)) q) base
  end.

(* ================================================================== *)
(** * Properties *)

Example cpf_valid_ex : isValidCPF "529.982.247-25" = true.
Proof. reflexivity. Qed.
Example cnpj_valid_ex : isValidCNPJ "11.222.333/0001-81" = true.
Proof. reflexivity. Qed.
Example key_dv_ex :
  calcNfeKeyDV "3519084306106400018355001000000017100000001" = Some 7.
Proof. vm_compute. reflexivity. Qed.
Section Props.
Context {N : JSNum}.

Ltac split_binds :=
  repeat match goal with
  | H : bind ?c _ = _ |- _ =>
      let a := fresh "a" in
      destruct c as [a|?] eqn:?; simpl in H; [|discriminate H]
  | H : match ?c with Normal _ => _ | Throw _ => _ end = _ |- _ =>
      destruct c eqn:?
  | H : (if ?b then _ else _) = _ |- _ => destruct b eqn:?
  | H : match ?c with inl _ => _ | inr _ => _ end = _ |- _ => destruct c eqn:?
  end.

(** Every report [auditXml] returns is built by [summarize]. *)
Lemma auditXml_summarize (parse : string -> completion jvalue) (input : jvalue) (r : AuditResult) :
  auditXml parse input = Normal r ->
  exists fs ic h ak t s, r = summarize fs ic h ak t s.
Proof.
  unfold auditXml; intro H; split_binds.
  all: try discriminate.
  all: injection H as <-; do 6 eexists; reflexivity.
Qed.

Lemma count_severity_app (sev : Severity) (l1 l2 : list Finding) :
  count_severity sev (l1 ++ l2) = count_severity sev l1 + count_severity sev l2.
Proof.
  unfold count_severity; rewrite filter_app, length_app; reflexivity.
Qed.

Lemma count_severity_partition (fs : list Finding) :
  count_severity SevError fs + count_severity SevWarning fs + count_severity SevInfo fs
  = List.length fs.
Proof.
  induction fs as [|f fs IH]; [reflexivity|].
  unfold count_severity in *; simpl.
  destruct (severity f); simpl; lia.
Qed.

(** C1: [ok] is true exactly when no finding of the returned report has
    severity [error]. *)
Theorem audit_ok_iff_no_errors (parse : string -> completion jvalue) (input : jvalue)
  (r : AuditResult) :
  auditXml parse input = Normal r ->
  (ok r = true <-> count_severity SevError (findings r) = 0).
Proof.
  intro H; destruct (auditXml_summarize parse input r H) as (fs & ic & h & ak & t & s & ->).
  unfold summarize; simpl; apply Nat.eqb_eq.
Qed.

(** C9: the three counters of the summary partition the findings:
    errors + warnings + infos is the number of findings, and they count
    the findings of each severity. *)
Theorem audit_summary_partitions_findings (parse : string -> completion jvalue)
  (input : jvalue) (r : AuditResult) :
  auditXml parse input = Normal r ->
  errors (summary r) = count_severity SevError (findings r) /\
  warnings (summary r) = count_severity SevWarning (findings r) /\
  infos (summary r) = count_severity SevInfo (findings r) /\
  errors (summary r) + warnings (summary r) + infos (summary r) = List.length (findings r).
Proof.
  intro H; destruct (auditXml_summarize parse input r H) as (fs & ic & h & ak & t & s & ->).
  unfold summarize; simpl; repeat split; apply count_severity_partition.
Qed.


End Props.

Section Props2.
Context {N : JSNum}.

(** C2 (code defect): an item that is a bare text value makes [get]
    evaluate ['prod' in "x"], which throws; [auditXml] does not catch it,
    so the call raises instead of returning a report. *)
Theorem audit_throws_on_text_item (parse : string -> completion jvalue) :
  parse primitive_item_xml = Normal primitive_item_tree ->
  auditXml parse (xml_input primitive_item_xml) = Throw TypeError.
Proof.
  intro Hp; unfold auditXml.
  replace (InputSchema_safeParse (xml_input primitive_item_xml)) with
    (@inr (list ZodIssue) string primitive_item_xml) by reflexivity.
  unfold parseNFeXml; rewrite Hp; reflexivity.
Qed.

End Props2.

(** ** Digit strings and the access-key check digit *)

Lemma all_digits_forallb (s : string) :
  all_digits s = forallb is_digit (list_ascii_of_string s).
Proof. induction s as [|c s IH]; simpl; [reflexivity|now rewrite IH]. Qed.

Lemma all_digits_only_digits (s : string) : all_digits (only_digits s) = true.
Proof.
  induction s as [|c s IH]; simpl; [reflexivity|].
  destruct (is_digit c) eqn:E; simpl; [rewrite E, IH|]; auto.
Qed.

Lemma only_digits_all (s : string) : all_digits s = true -> only_digits s = s.
Proof.
  induction s as [|c s IH]; simpl; [reflexivity|].
  intro H; apply andb_prop in H as [H1 H2]; rewrite H1, IH; auto.
Qed.

Lemma substring0_length (n : nat) (s : string) :
  n <= String.length s -> String.length (substring 0 n s) = n.
Proof.
  revert s; induction n as [|n IH]; intros s H; [destruct s; reflexivity|].
  destruct s as [|c s]; simpl in *; [lia|].
  rewrite IH; [reflexivity|lia].
Qed.

Lemma substring0_all_digits (n : nat) (s : string) :
  all_digits s = true -> all_digits (substring 0 n s) = true.
Proof.
  revert s; induction n as [|n IH]; intros s H; [destruct s; reflexivity|].
  destruct s as [|c s]; simpl in *; [reflexivity|].
  apply andb_prop in H as [H1 H2]; rewrite H1, IH; auto.
Qed.

Lemma key_weight_nth (k : nat) : k < 8 -> nth k key_weights 0 = 2 + k.
Proof. intro H; do 8 (destruct k as [|k]; [reflexivity|]); lia. Qed.

Lemma is_digit_value (c : ascii) :
  is_digit c = true -> digit_value c = Some (nat_of_ascii c - 48).
Proof. unfold digit_value; intros ->; reflexivity. Qed.

(** The right-to-left loop of [calcNfeKeyDV] computes [key_sum_spec]. *)
Lemma dv_loop_spec (l : list ascii) (sum j : nat) :
  forallb is_digit l = true ->
  dv_loop l sum (j mod 8) = Some (sum + key_sum_spec (map (fun c => nat_of_ascii c - 48) l) j).
Proof.
  revert sum j; induction l as [|c l IH]; intros sum j H;
    cbn [dv_loop map key_sum_spec forallb] in *.
  - f_equal; lia.
  - apply andb_prop in H as [H1 H2].
    rewrite (is_digit_value c H1).
    rewrite key_weight_nth by (apply Nat.mod_upper_bound; lia).
    change (List.length key_weights) with 8.
    rewrite Nat.Div0.add_mod_idemp_l.
    replace (j + 1) with (S j) by lia.
    rewrite IH by exact H2. f_equal; lia.
Qed.

Lemma calcNfeKeyDV_43 (k43 : string) :
  all_digits k43 = true -> String.length k43 = 43 ->
  calcNfeKeyDV k43 = Some (nfe_key_dv_spec k43).
Proof.
  intros Hd Hl. unfold calcNfeKeyDV, nfe_key_dv_spec.
  rewrite (only_digits_all k43 Hd), Hl; cbn [Nat.eqb negb]; rewrite Hl; cbn [Nat.eqb negb].
  rewrite all_digits_forallb in Hd.
  assert (HL := dv_loop_spec (rev (list_ascii_of_string k43)) 0 0 ltac:(
    rewrite forallb_forall in *; intros x Hx; apply Hd, in_rev; exact Hx)).
  change (0 mod 8) with 0 in HL; rewrite HL.
  unfold digits_of; rewrite map_rev; simpl.
  destruct ((_ =? 10) || (_ =? 11)); reflexivity.
Qed.

(** [calcNfeKeyDV] on a 44-digit key uses its first 43 digits. *)
Lemma calcNfeKeyDV_44 (key : string) :
  all_digits key = true -> String.length key = 44 ->
  calcNfeKeyDV key = Some (nfe_key_dv_spec (substring 0 43 key)).
Proof.
  intros Hd Hl.
  assert (H43 : String.length (substring 0 43 key) = 43) by (apply substring0_length; lia).
  assert (Hd43 : all_digits (substring 0 43 key) = true) by (apply substring0_all_digits; exact Hd).
  rewrite <- (calcNfeKeyDV_43 _ Hd43 H43).
  unfold calcNfeKeyDV. rewrite (only_digits_all key Hd), (only_digits_all _ Hd43), Hl, H43.
  cbn [Nat.eqb]. reflexivity.
Qed.

Lemma nfe_key_dv_spec_digit (k43 : string) : nfe_key_dv_spec k43 <= 9.
Proof.
  unfold nfe_key_dv_spec.
  set (m := key_sum_spec (rev (digits_of k43)) 0 mod 11).
  assert (m < 11) by (apply Nat.mod_upper_bound; lia).
  destruct ((11 - m =? 10) || (11 - m =? 11)) eqn:E; [lia|].
  apply orb_false_iff in E as [E1 E2].
  apply Nat.eqb_neq in E1, E2; lia.
Qed.

Lemma only_digits_nonempty (k : string) : String.length (only_digits k) = 44 -> k <> "".
Proof. intros H ->; discriminate H. Qed.

Section KeyProps.
Context {N : JSNum}.

(** C5: for a key of exactly 44 digits the check digit is the spec's
    modulus-11 digit of the first 43 digits (weights 2..9 cycling from
    the right, 10 and 11 mapped to 0); a different supplied 44th digit
    yields the error finding that reports both digits, an equal one the
    info finding; and for a valid key, recomputing from its first 43
    digits gives back its last digit. *)
Theorem access_key_check_digit (k : string) :
  String.length (only_digits k) = 44 ->
  calcNfeKeyDV (only_digits k) = Some (nfe_key_dv_spec (substring 0 43 (only_digits k))) /\
  access_key_rule (Some k) =
    (if nfe_key_dv_spec (substring 0 43 (only_digits k)) =? num_at (only_digits k) 43
     then [key_ok_finding]
     else [key_mismatch_finding (num_at (only_digits k) 43)
                                (nfe_key_dv_spec (substring 0 43 (only_digits k)))]) /\
  severity key_ok_finding = SevInfo /\
  (forall a b, severity (key_mismatch_finding a b) = SevError) /\
  (nfe_key_dv_spec (substring 0 43 (only_digits k)) = num_at (only_digits k) 43 ->
   calcNfeKeyDV (substring 0 43 (only_digits k)) = Some (num_at (only_digits k) 43)).
Proof.
  intro Hl.
  pose proof (calcNfeKeyDV_44 (only_digits k) (all_digits_only_digits k) Hl) as Hdv.
  split; [exact Hdv|]. split; [|split; [reflexivity|split; [reflexivity|]]].
  - unfold access_key_rule.
    destruct (String.eqb_spec k "") as [E|_]; [exfalso; exact (only_digits_nonempty k Hl E)|].
    rewrite Hl; cbn [Nat.eqb negb]. rewrite Hdv.
    destruct (_ =? _); reflexivity.
  - intro E; rewrite <- E.
    apply calcNfeKeyDV_43;
      [apply substring0_all_digits, all_digits_only_digits | apply substring0_length; lia].
Qed.

(** C10: on a key of exactly 44 digits [calcNfeKeyDV] returns a digit
    0..9, so the rule never reaches its [ACCESS_KEY_DV_UNKNOWN] branch. *)
Theorem calcNfeKeyDV_total_on_44 (k : string) :
  String.length (only_digits k) = 44 ->
  exists d, calcNfeKeyDV (only_digits k) = Some d /\ d <= 9 /\
    forall f, In f (access_key_rule (Some k)) -> code f <> "ACCESS_KEY_DV_UNKNOWN".
Proof.
  intro Hl.
  pose proof (calcNfeKeyDV_44 (only_digits k) (all_digits_only_digits k) Hl) as Hdv.
  eexists; split; [exact Hdv|]; split; [apply nfe_key_dv_spec_digit|].
  intros f Hf; unfold access_key_rule in Hf.
  destruct (String.eqb_spec k "") as [E|_]; [exfalso; exact (only_digits_nonempty k Hl E)|].
  rewrite Hl, Hdv in Hf; cbn [Nat.eqb negb] in Hf.
  destruct (negb _); destruct Hf as [<-|[]]; discriminate.
Qed.

End KeyProps.

(** ** Stages of the audit and the codes they emit *)

Section StageProps.
Context {N : JSNum}.

Ltac in_cases H :=
  repeat match type of H with
  | In _ (_ ++ _) => apply in_app_or in H; destruct H as [H|H]
  | In _ [] => destruct H
  | In _ (_ :: _) => destruct H as [H|H]
  | In _ (if ?b then _ else _) => destruct b
  | In _ (match ?x with _ => _ end) => destruct x
  end.

Ltac no_key_code :=
  let f := fresh "f" in let H := fresh "H" in
  intros f H; cbv beta zeta in H; in_cases H; subst; reflexivity.

Lemma items_empty_rule_codes (p : ParsedNFe) :
  forall f, In f (items_empty_rule p) -> access_key_code (code f) = false.
Proof. unfold items_empty_rule; no_key_code. Qed.

Lemma essential_rule_codes (p : ParsedNFe) :
  forall f, In f (essential_rule p) -> access_key_code (code f) = false.
Proof. unfold essential_rule; no_key_code. Qed.

Lemma doc_rule_codes (p : ParsedNFe) :
  forall f, In f (doc_rule p) -> access_key_code (code f) = false.
Proof. unfold doc_rule; no_key_code. Qed.

Lemma uf_cep_rule_codes (p : ParsedNFe) (u v : string) :
  forall f, In f (uf_cep_rule p u v) -> access_key_code (code f) = false.
Proof. unfold uf_cep_rule; no_key_code. Qed.

Lemma totals_rule_codes (totals : jvalue) (m : nat) (s : Sums) (t : Totals) :
  forall f, In f (totals_rule totals m s t) -> access_key_code (code f) = false.
Proof.
  unfold totals_rule, totals_missing_finding, vprod_missing_finding, vprod_rule, vdesc_rule,
    vfrete_rule, vseg_rule, voutro_rule, expense_rule, vnf_rule; no_key_code.
Qed.

Lemma item_rule_codes (u v : string) (i : nat) (d : jvalue) (fs : list Finding) :
  item_rule u v i d = Normal fs ->
  forall f, In f fs -> access_key_code (code f) = false.
Proof.
  unfold item_rule; intro H.
  repeat match type of H with
  | bind ?c _ = _ => let a := fresh "g" in destruct c as [a|?]; cbn [bind] in H; [|discriminate H]
  end.
  injection H as <-. no_key_code.
Qed.

Lemma item_rules_codes (u v : string) (itens : list jvalue) :
  forall i fs, item_rules u v i itens = Normal fs ->
  forall f, In f fs -> access_key_code (code f) = false.
Proof.
  induction itens as [|d r IH]; intros i fs H f Hf; cbn [item_rules] in H.
  - injection H as <-; destruct Hf.
  - destruct (item_rule u v i d) as [fs1|] eqn:E1; cbn [bind] in H; [|discriminate H].
    destruct (item_rules u v (S i) r) as [fs2|] eqn:E2; cbn [bind] in H; [|discriminate H].
    injection H as <-. apply in_app_or in Hf as [Hf|Hf].
    + exact (item_rule_codes u v i d fs1 E1 f Hf).
    + exact (IH (S i) fs2 E2 f Hf).
Qed.

(** Past the structural gate, the findings of a returned report are those
    of the empty-items rule, then those of the access-key rule, then
    findings of the later rules, none of which has an access-key code. *)
Lemma auditXml_gate_findings (parse : string -> completion jvalue) (input : jvalue)
  (xml : string) (raw : jvalue) (r : AuditResult) :
  InputSchema_safeParse input = inr xml ->
  parse xml = Normal raw ->
  truthy (p_infNFe (parseNFe_tree raw)) = true ->
  auditXml parse input = Normal r ->
  exists rest,
    findings r = (items_empty_rule (parseNFe_tree raw)
                 ++ access_key_rule (p_accessKey (parseNFe_tree raw)) ++ rest)%list /\
    forall f, In f rest -> access_key_code (code f) = false.
Proof.
  intros Hin Hp Htr H.
  unfold auditXml in H; rewrite Hin in H; unfold parseNFeXml in H; rewrite Hp in H.
  cbn [bind] in H; rewrite Htr in H; cbn [negb] in H.
  set (p := parseNFe_tree raw) in *.
  destruct (sum_items (p_det p) zero_sums 0) as [acc|] eqn:Es; cbn [bind] in H; [|discriminate H].
  destruct (item_rules _ _ 0 (p_det p)) as [ifs|] eqn:Ei; cbn [bind] in H; [|discriminate H].
  injection H as <-. unfold summarize; cbn [findings].
  eexists; split; [rewrite <- !app_assoc; reflexivity|].
  intros f Hf.
  apply in_app_or in Hf as [Hf|Hf]; [exact (essential_rule_codes p f Hf)|].
  apply in_app_or in Hf as [Hf|Hf]; [exact (doc_rule_codes p f Hf)|].
  apply in_app_or in Hf as [Hf|Hf]; [exact (uf_cep_rule_codes p _ _ f Hf)|].
  apply in_app_or in Hf as [Hf|Hf]; [exact (totals_rule_codes _ _ _ _ f Hf)|].
  exact (item_rules_codes _ _ _ _ _ Ei f Hf).
Qed.

Lemma parsed_key_nonempty (raw : jvalue) (k : string) :
  p_accessKey (parseNFe_tree raw) = Some k -> k <> "".
Proof.
  unfold parseNFe_tree; cbn [p_accessKey].
  match goal with |- (if String.eqb ?x "" then _ else _) = _ -> _ =>
    destruct (String.eqb_spec x "") as [E|E] end;
    intro H; [discriminate H|injection H as <-; exact E].
Qed.

(** C6: past the structural gate, a document without an access key gets
    the [ACCESS_KEY_NOT_FOUND] warning, and a key whose digits do not
    number 44 gets the [ACCESS_KEY_LEN] warning with the digit count; in
    both cases that warning is the only access-key finding of the report,
    so no check-digit mismatch error is reported. *)
Theorem access_key_missing_or_short (parse : string -> completion jvalue) (input : jvalue)
  (xml : string) (raw : jvalue) (r : AuditResult) :
  InputSchema_safeParse input = inr xml ->
  parse xml = Normal raw ->
  truthy (p_infNFe (parseNFe_tree raw)) = true ->
  auditXml parse input = Normal r ->
  (p_accessKey (parseNFe_tree raw) = None ->
     In key_not_found_finding (findings r) /\
     severity key_not_found_finding = SevWarning /\
     forall f, In f (findings r) -> access_key_code (code f) = true -> f = key_not_found_finding) /\
  (forall k, p_accessKey (parseNFe_tree raw) = Some k ->
     String.length (only_digits k) <> 44 ->
     In (key_len_finding (String.length (only_digits k))) (findings r) /\
     severity (key_len_finding (String.length (only_digits k))) = SevWarning /\
     (forall f, In f (findings r) -> access_key_code (code f) = true ->
                f = key_len_finding (String.length (only_digits k))) /\
     (forall f, In f (findings r) -> code f <> "ACCESS_KEY_DV_MISMATCH")).
Proof.
  intros Hin Hp Htr H.
  destruct (auditXml_gate_findings parse input xml raw r Hin Hp Htr H) as (rest & Hf & Hrest).
  assert (Honly : forall fs0 g,
            (forall f, In f fs0 -> access_key_code (code f) = true -> f = g) ->
            forall f, In f (items_empty_rule (parseNFe_tree raw) ++ fs0 ++ rest)%list ->
            access_key_code (code f) = true -> f = g).
  { intros fs0 g Hg f Hin' Hc.
    apply in_app_or in Hin' as [Hin'|Hin'];
      [rewrite (items_empty_rule_codes _ f Hin') in Hc; discriminate Hc|].
    apply in_app_or in Hin' as [Hin'|Hin']; [exact (Hg f Hin' Hc)|].
    rewrite (Hrest f Hin') in Hc; discriminate Hc. }
  split.
  - intro Hk; rewrite Hk in Hf; cbn [access_key_rule] in Hf; rewrite Hf.
    split; [apply in_or_app; right; left; reflexivity|split; [reflexivity|]].
    apply Honly; intros f [<-|[]] _; reflexivity.
  - intros k Hk Hl.
    assert (Hacc : access_key_rule (Some k) = [key_len_finding (String.length (only_digits k))]).
    { unfold access_key_rule.
      destruct (String.eqb_spec k "") as [E|_]; [exfalso; exact (parsed_key_nonempty raw k Hk E)|].
      apply Nat.eqb_neq in Hl; rewrite Hl; reflexivity. }
    rewrite Hk, Hacc in Hf; rewrite Hf.
    assert (Hg : forall f, In f (findings r) -> access_key_code (code f) = true ->
                   f = key_len_finding (String.length (only_digits k))).
    { rewrite Hf; apply Honly; intros f [<-|[]] _; reflexivity. }
    split; [apply in_or_app; right; left; reflexivity|split; [reflexivity|split]].
    + rewrite <- Hf; exact Hg.
    + intros f Hin' Hc.
      rewrite <- Hf in Hin'.
      assert (access_key_code (code f) = true) as Hc' by (rewrite Hc; reflexivity).
      rewrite (Hg f Hin' Hc') in Hc; discriminate Hc.
Qed.

End StageProps.

(** ** Reconciliation of the totals *)

Section TotalsProps.
Context {N : JSNum}.

(** C3 (amended): discount, freight, insurance and other expenses are
    compared only when the declared total is present and the rounded
    item-level sum is strictly positive; when compared, a rounded
    difference of absolute value above 0.01 yields one warning; within
    tolerance freight, insurance and other expenses emit nothing, while
    discount emits the [TOTAL_VDESC_OK] info finding. *)
Theorem expense_comparisons (sum : num) (tot : option num) :
  ((tot = None \/ positive sum = false) ->
     vdesc_rule sum tot = [] /\ vfrete_rule sum tot = [] /\
     vseg_rule sum tot = [] /\ voutro_rule sum tot = []) /\
  (forall t, tot = Some t -> positive sum = true ->
     exceeds_cent (round2 (num_sub sum t)) = true ->
     map (fun f => (severity f, code f)) (vdesc_rule sum tot)
       = [(SevWarning, "TOTAL_VDESC_MISMATCH")] /\
     map (fun f => (severity f, code f)) (vfrete_rule sum tot)
       = [(SevWarning, "TOTAL_VFRETE_MISMATCH")] /\
     map (fun f => (severity f, code f)) (vseg_rule sum tot)
       = [(SevWarning, "TOTAL_VSEG_MISMATCH")] /\
     map (fun f => (severity f, code f)) (voutro_rule sum tot)
       = [(SevWarning, "TOTAL_VOUTRO_MISMATCH")]) /\
  (forall t, tot = Some t -> positive sum = true ->
     exceeds_cent (round2 (num_sub sum t)) = false ->
     vfrete_rule sum tot = [] /\ vseg_rule sum tot = [] /\ voutro_rule sum tot = [] /\
     map (fun f => (severity f, code f)) (vdesc_rule sum tot) = [(SevInfo, "TOTAL_VDESC_OK")]).
Proof.
  unfold vdesc_rule, vfrete_rule, vseg_rule, voutro_rule, expense_rule.
  split; [|split].
  - intros [H|H]; [subst tot; repeat split|].
    rewrite H; destruct tot; repeat split.
  - intros t -> Hp He; rewrite Hp; cbv zeta; rewrite He; repeat split.
  - intros t -> Hp He; rewrite Hp; cbv zeta; rewrite He; repeat split.
Qed.

(** C7 (amended): without a declared-totals block the reconciliation
    emits exactly the [TOTALS_MISSING] warning (no comparison, and no
    missing-vProd warning); with the block, a positive count of items
    lacking [vProd] yields first the [ITEM_VPROD_MISSING] warning, whose
    message carries the count; the count is that of the items whose
    [prod.vProd] is not a number. *)
Theorem totals_block_and_vprod_count (totals : jvalue) (m : nat) (s : Sums) (t : Totals) :
  (truthy totals = false ->
     totals_rule totals m s t = [totals_missing_finding] /\
     severity totals_missing_finding = SevWarning) /\
  (truthy totals = true -> 0 < m ->
     (exists rest, totals_rule totals m s t = vprod_missing_finding m :: rest) /\
     severity (vprod_missing_finding m) = SevWarning /\
     message (vprod_missing_finding m) = nat_to_string m ++ " item(ns) sem prod.vProd.") /\
  (forall itens acc m0 acc' m',
     sum_items itens acc m0 = Normal (acc', m') -> m' = m0 + vprod_missing_count itens).
Proof.
  split; [|split].
  - intro H; unfold totals_rule; rewrite H; split; reflexivity.
  - intros H Hm; unfold totals_rule; rewrite H; cbn [negb].
    apply Nat.ltb_lt in Hm; rewrite Hm.
    split; [eexists; reflexivity|split; reflexivity].
  - induction itens as [|d r IH]; intros acc m0 acc' m' H; cbn [sum_items] in H.
    + injection H as H1 H2; subst; simpl; lia.
    + cbn [vprod_missing_count].
      destruct (get d "prod.vProd") as [gp|] eqn:E; cbn [bind] in H; [|discriminate H].
      repeat match type of H with
      | bind ?c _ = _ => let a := fresh "g" in destruct c as [a|?]; cbn [bind] in H; [|discriminate H]
      end.
      apply IH in H; rewrite H.
      destruct (toNumber gp); simpl; lia.
Qed.

End TotalsProps.


(* ================================================================== *)
(** * Further properties of the code *)

(** ** Digit strings *)

Lemma only_digits_idem (s : string) : only_digits (only_digits s) = only_digits s.
Proof. apply only_digits_all, all_digits_only_digits. Qed.

Lemma str_app_assoc (a b c : string) : ((a ++ b) ++ c)%string = (a ++ (b ++ c))%string.
Proof. induction a as [|x a IH]; simpl; [reflexivity|now rewrite IH]. Qed.

Lemma str_app_nil_r (a : string) : (a ++ "")%string = a.
Proof. induction a as [|x a IH]; simpl; [reflexivity|now rewrite IH]. Qed.

Lemma all_digits_app (a b : string) :
  all_digits (a ++ b) = all_digits a && all_digits b.
Proof. induction a as [|x a IH]; simpl; [reflexivity|now rewrite IH, andb_assoc]. Qed.

Lemma take_digits_spec (n : nat) (s t : string) :
  take_digits n s = Some t -> all_digits t = true /\ String.length t = n.
Proof.
  revert s t; induction n as [|n IH]; intros s t H; cbn [take_digits] in H.
  - injection H as <-; split; reflexivity.
  - destruct s as [|c s]; [discriminate H|].
    destruct (is_digit c) eqn:Ec; [|discriminate H].
    destruct (take_digits n s) as [t'|] eqn:E; [|discriminate H].
    injection H as <-; destruct (IH s t' E) as [H1 H2]; simpl; rewrite Ec, H1, H2; split; reflexivity.
Qed.

Lemma take_digits_all (t rest : string) :
  all_digits t = true -> take_digits (String.length t) (t ++ rest) = Some t.
Proof.
  induction t as [|c t IH]; intro H; [reflexivity|].
  cbn [all_digits] in H; apply andb_prop in H as [H1 H2].
  simpl; rewrite H1, (IH H2); reflexivity.
Qed.

Lemma match_nfe_id_spec (s k : string) :
  match_nfe_id s = Some k -> all_digits k = true /\ String.length k = 44.
Proof.
  induction s as [|c s IH]; intro H; cbn [match_nfe_id] in H; [discriminate H|].
  destruct (if String.prefix "NFe" (String c s)
            then take_digits 44 (substring 3 (String.length (String c s) - 3) (String c s))
            else None) as [k'|] eqn:E.
  - injection H as <-.
    destruct (String.prefix "NFe" (String c s)); [|discriminate E].
    exact (take_digits_spec _ _ _ E).
  - exact (IH H).
Qed.

Lemma substring_0_full (s : string) : substring 0 (String.length s) s = s.
Proof. induction s as [|c s IH]; simpl; [reflexivity|now rewrite IH]. Qed.

Lemma substring0_le (n : nat) (s : string) : String.length (substring 0 n s) <= n.
Proof.
  revert s; induction n as [|n IH]; intro s; [destruct s; simpl; lia|].
  destruct s as [|c s]; simpl; [lia|]. specialize (IH s); lia.
Qed.

Lemma digit_not_space (c : ascii) : is_digit c = true -> is_space c = false.
Proof.
  unfold is_digit, is_space; intro H; apply andb_prop in H as [H1 H2].
  apply Nat.leb_le in H1, H2.
  destruct (nat_of_ascii c =? 32) eqn:E1; [apply Nat.eqb_eq in E1; lia|].
  destruct (9 <=? nat_of_ascii c) eqn:E2; destruct (nat_of_ascii c <=? 13) eqn:E3;
    try reflexivity; apply Nat.leb_le in E3; lia.
Qed.

Lemma drop_leading_space_keep (c : ascii) (l : list ascii) :
  is_space c = false -> drop_leading_space (c :: l) = c :: l.
Proof. intro H; simpl; rewrite H; reflexivity. Qed.

(** [trim] leaves a string alone when it starts with a non-space and ends with a digit. *)
Lemma trim_digit_end (c : ascii) (s : string) (d : ascii) :
  is_space c = false -> is_digit d = true ->
  trim (String c (s ++ String d EmptyString)) = String c (s ++ String d EmptyString).
Proof.
  intros Hc Hd; unfold trim.
  assert (E : list_ascii_of_string (String c (s ++ String d EmptyString))
              = c :: (list_ascii_of_string s ++ [d])%list).
  { simpl; f_equal; induction s as [|x s IH]; simpl; [reflexivity|now rewrite IH]. }
  rewrite E, (drop_leading_space_keep c _ Hc).
  change (c :: (list_ascii_of_string s ++ [d])%list) with ([c] ++ list_ascii_of_string s ++ [d])%list.
  rewrite !rev_app_distr; cbn [rev app].
  rewrite (drop_leading_space_keep d _ (digit_not_space d Hd)).
  change (d :: (rev (list_ascii_of_string s) ++ [c])%list)
    with ([d] ++ rev (list_ascii_of_string s) ++ [c])%list.
  rewrite !rev_app_distr, rev_involutive; cbn [rev app].
  rewrite <- E, string_of_list_ascii_of_string; reflexivity.
Qed.

Lemma all_digits_last (k : string) :
  all_digits k = true -> k <> "" -> exists k' d, k = (k' ++ String d EmptyString)%string /\ is_digit d = true.
Proof.
  induction k as [|c k IH]; intros H Hn; [congruence|].
  cbn [all_digits] in H; apply andb_prop in H as [H1 H2].
  destruct k as [|c' k''].
  - exists "", c; split; [reflexivity|exact H1].
  - destruct (IH H2 ltac:(discriminate)) as (k' & d & E & Hd).
    exists (String c k'), d; rewrite E; split; [reflexivity|exact Hd].
Qed.

Lemma take_digits_self (t : string) :
  all_digits t = true -> take_digits (String.length t) t = Some t.
Proof. intro H; rewrite <- (str_app_nil_r t) at 2; rewrite take_digits_all by exact H; reflexivity. Qed.

Lemma calcNfeKeyDV_only_digits (s : string) : calcNfeKeyDV (only_digits s) = calcNfeKeyDV s.
Proof. unfold calcNfeKeyDV; rewrite only_digits_idem; reflexivity. Qed.

Section KeyExtraction.
Context {N : JSNum}.

(** Every key [extractAccessKeyFromInfNFeId] returns is exactly 44
    decimal digits. *)
Theorem extractAccessKey_44_digits (id : jvalue) (k : string) :
  extractAccessKeyFromInfNFeId id = Some k -> all_digits k = true /\ String.length k = 44.
Proof. unfold extractAccessKeyFromInfNFeId; apply match_nfe_id_spec. Qed.

(** An [Id] of the form ["NFe"] followed by 44 digits gives back those
    44 digits. *)
Theorem extractAccessKey_roundtrip (k : string) :
  all_digits k = true -> String.length k = 44 ->
  extractAccessKeyFromInfNFeId (JStr ("NFe" ++ k)) = Some k.
Proof.
  intros Hd Hl.
  unfold extractAccessKeyFromInfNFeId; cbn [nullish js_String].
  assert (Ht : trim ("NFe" ++ k) = ("NFe" ++ k)%string).
  { destruct (all_digits_last k Hd) as (k' & d & E & Hdd); [intros ->; discriminate Hl|].
    rewrite E.
    change ("NFe" ++ (k' ++ String d ""))%string
      with (String "N" ("Fe" ++ (k' ++ String d "")))%string.
    rewrite <- str_app_assoc. apply trim_digit_end; [reflexivity|exact Hdd]. }
  rewrite Ht. change ("NFe" ++ k)%string with (String "N" (String "F" (String "e" k))).
  cbn [match_nfe_id].
  replace (String.prefix "NFe" (String "N" (String "F" (String "e" k)))) with true
    by (destruct k; reflexivity).
  assert (Hs : substring 3 (String.length (String "N" (String "F" (String "e" k))) - 3)
             (String "N" (String "F" (String "e" k))) = k).
  { cbn [String.length substring]. replace (S (S (S (String.length k))) - 3) with (String.length k) by lia.
    apply substring_0_full. }
  rewrite Hs.
  rewrite <- Hl, take_digits_self by exact Hd; reflexivity.
Qed.

(** The access key [parseNFeXml] extracts, when there is one, is a
    non-empty string of at most 44 decimal digits (44 when it comes from
    [infNFe.@_Id], the receipt's [chNFe] stripped to digits and cut to
    44 otherwise); so the audit's [replace(/\D/g, '')] leaves it as it is. *)
Theorem parsed_accessKey_shape (raw : jvalue) (k : string) :
  p_accessKey (parseNFe_tree raw) = Some k ->
  all_digits k = true /\ 1 <= String.length k <= 44 /\ only_digits k = k.
Proof.
  unfold parseNFe_tree; cbn [p_accessKey]; cbv zeta.
  match goal with |- (if String.eqb ?x "" then _ else _) = _ -> _ =>
    destruct (String.eqb_spec x "") as [En|En]; [discriminate|] end.
  intro H; injection H as <-.
  match goal with
  | |- context [match ?e with Some k => k | None => ?p end] =>
      destruct e as [k0|] eqn:Ek
  end.
  - destruct (extractAccessKey_44_digits _ _ Ek) as [H1 H2].
    split; [exact H1|split; [lia|apply only_digits_all, H1]].
  - assert (Hd : all_digits (substring 0 44 (only_digits (safeString
      (member (member (member (member raw "nfeProc") "protNFe") "infProt") "chNFe")))) = true)
      by (apply substring0_all_digits, all_digits_only_digits).
    split; [exact Hd|split; [|apply only_digits_all, Hd]].
    split; [destruct (substring 0 44 _); [congruence|simpl; lia]|apply substring0_le].
Qed.

End KeyExtraction.

(** [calcNfeKeyDV] returns [null] exactly when the input's digits do
    not number 43 or 44: non-digit characters are stripped first, so they
    never make it fail. *)
Theorem calcNfeKeyDV_null_iff (s : string) :
  calcNfeKeyDV s = None <->
  String.length (only_digits s) <> 43 /\ String.length (only_digits s) <> 44.
Proof.
  rewrite <- calcNfeKeyDV_only_digits.
  assert (Hd := all_digits_only_digits s).
  destruct (Nat.eq_dec (String.length (only_digits s)) 44) as [E44|N44].
  - rewrite (calcNfeKeyDV_44 _ Hd E44); split; [discriminate|intros [_ H]; contradiction].
  - destruct (Nat.eq_dec (String.length (only_digits s)) 43) as [E43|N43].
    + rewrite (calcNfeKeyDV_43 _ Hd E43); split; [discriminate|intros [H _]; contradiction].
    + split; [intros _; split; assumption|intros _].
      unfold calcNfeKeyDV; rewrite only_digits_idem.
      apply Nat.eqb_neq in N44, N43; rewrite N44; cbn [negb]; rewrite N43; reflexivity.
Qed.

Section NumberProps.
Context {N : JSNum}.

Lemma replace_first_comma_empty (s : string) : replace_first_comma s = "" -> s = "".
Proof. destruct s as [|c s]; simpl; [reflexivity|destruct (Ascii.eqb c ","%char); discriminate]. Qed.

(** [toNumber] only ever returns finite numbers, and returns [null] for
    [null], [undefined] and text that is blank after trimming. *)
Theorem toNumber_finite_or_null (v : jvalue) :
  (forall n, toNumber v = Some n -> num_is_finite n = true) /\
  toNumber JNull = None /\ toNumber JUndefined = None /\
  (forall s, trim s = "" -> toNumber (JStr s) = None).
Proof.
  split; [|split; [reflexivity|split; [reflexivity|]]].
  - intros n; destruct v; cbn [toNumber]; try discriminate;
      try (destruct (num_is_finite _) eqn:E; [intro H; injection H as <-; exact E|discriminate]);
      (destruct (String.eqb _ "") ; [discriminate|];
       destruct (num_is_finite _) eqn:E; [intro H; injection H as <-; exact E|discriminate]).
  - intros s Hs; cbn [toNumber js_String]; rewrite Hs; reflexivity.
Qed.

End NumberProps.

Section GetProps.
Context {N : JSNum}.






End GetProps.

(** ** The identifier validators *)

(** [isValidCPF], [isValidCNPJ] and [isValidCEP] see only the digits of
    their input: two inputs with the same digits, whatever the
    punctuation, get the same verdict. *)
Theorem validators_see_only_digits (s t : string) :
  only_digits s = only_digits t ->
  isValidCPF s = isValidCPF t /\ isValidCNPJ s = isValidCNPJ t /\ isValidCEP s = isValidCEP t.
Proof. intro E; unfold isValidCPF, isValidCNPJ, isValidCEP; rewrite E; split; [|split]; reflexivity. Qed.

Lemma set_char_length (s : string) (i : nat) (c : ascii) :
  String.length (set_char s i c) = String.length s.
Proof. revert i; induction s as [|c0 s IH]; intros [|i]; simpl; auto. Qed.

Lemma set_char_get (s : string) (i j : nat) (c : ascii) :
  String.get j (set_char s i c) =
  (if Nat.eqb j i then (if i <? String.length s then Some c else None) else String.get j s).
Proof.
  revert i j; induction s as [|c0 s IH]; intros i j.
  - destruct i; simpl; destruct (j =? _); reflexivity.
  - destruct i, j; simpl; try reflexivity. rewrite IH; reflexivity.
Qed.

Lemma num_at_set_char_other (s : string) (i j : nat) (c : ascii) :
  j <> i -> num_at (set_char s i c) j = num_at s j.
Proof.
  intro H; unfold num_at, char_at; rewrite set_char_get.
  apply Nat.eqb_neq in H; rewrite H; reflexivity.
Qed.

Lemma num_at_set_char_same (s : string) (i : nat) (c : ascii) :
  i < String.length s -> is_digit c = true -> num_at (set_char s i c) i = nat_of_ascii c - 48.
Proof.
  intros H Hc; unfold num_at, char_at; rewrite set_char_get, Nat.eqb_refl.
  apply Nat.ltb_lt in H; rewrite H; unfold digit_value; rewrite Hc; reflexivity.
Qed.

Lemma all_digits_get (s : string) (i : nat) (c : ascii) :
  all_digits s = true -> String.get i s = Some c -> is_digit c = true.
Proof.
  revert i; induction s as [|c0 s IH]; intros [|i] H Hg; simpl in *; try discriminate.
  - injection Hg as <-; apply andb_prop in H; tauto.
  - apply andb_prop in H as [_ H]; exact (IH i H Hg).
Qed.

Lemma all_digits_set_char (s : string) (i : nat) (c : ascii) :
  all_digits s = true -> is_digit c = true -> all_digits (set_char s i c) = true.
Proof.
  revert i; induction s as [|c0 s IH]; intros [|i] H Hc; simpl in *; auto.
  - apply andb_prop in H as [_ H]; rewrite Hc, H; reflexivity.
  - apply andb_prop in H as [H1 H]; rewrite H1, IH; auto.
Qed.

Lemma weighted_sum_agree (s s' : string) (w : nat -> nat) (n : nat) :
  (forall j, j < n -> num_at s j = num_at s' j) -> weighted_sum s w n = weighted_sum s' w n.
Proof.
  induction n as [|n IH]; intro H; simpl; [reflexivity|].
  rewrite IH by (intros; apply H; lia). rewrite H by lia. reflexivity.
Qed.

Lemma substring0_set_char (s : string) (n i : nat) (c : ascii) :
  n <= i -> substring 0 n (set_char s i c) = substring 0 n s.
Proof.
  revert n i; induction s as [|c0 s IH]; intros [|n] [|i] H; simpl; try reflexivity; try lia.
  f_equal; apply IH; lia.
Qed.

(** Replacing either check digit of a valid CPF by a different digit
    makes [isValidCPF] reject it. *)
Theorem isValidCPF_check_digit_change (s : string) (i : nat) (c : ascii) :
  isValidCPF s = true -> ((i =? 9) || (i =? 10)) = true -> is_digit c = true ->
  (num_at (only_digits s) i =? nat_of_ascii c - 48) = false ->
  isValidCPF (set_char (only_digits s) i c) = false.
Proof.
  intros H Hi Hc Hne.
  set (t := only_digits s) in *.
  assert (Ht : only_digits s = t) by reflexivity.
  unfold isValidCPF in H; rewrite Ht in H; cbv zeta in H.
  destruct (String.length t =? 11) eqn:Hl; cbn [negb] in H; [|discriminate H].
  destruct (repeated_digit t); [discriminate H|].
  apply andb_prop in H as [H9 H10]; apply Nat.eqb_eq in H9, H10.
  apply Nat.eqb_eq in Hl.
  set (t' := set_char t i c).
  assert (Hd' : all_digits t' = true)
    by (apply all_digits_set_char; [apply all_digits_only_digits|exact Hc]).
  assert (Hl' : String.length t' = 11) by (unfold t'; rewrite set_char_length; exact Hl).
  assert (Hi' : i < String.length t) by (apply orb_prop in Hi as [E|E]; apply Nat.eqb_eq in E; lia).
  assert (Hnew : num_at t' i = nat_of_ascii c - 48) by (apply num_at_set_char_same; assumption).
  apply Nat.eqb_neq in Hne.
  unfold isValidCPF; rewrite (only_digits_all t' Hd'), Hl'; cbn [Nat.eqb negb].
  destruct (repeated_digit t'); [reflexivity|]. cbv zeta.
  apply orb_prop in Hi as [E|E]; apply Nat.eqb_eq in E; subst i.
  - rewrite (weighted_sum_agree t' t) by (intros j Hj; apply num_at_set_char_other; lia).
    rewrite <- H9, Hnew. apply Nat.eqb_neq in Hne. rewrite (Nat.eqb_sym (nat_of_ascii c - 48)), Hne. reflexivity.
  - rewrite (weighted_sum_agree t' t _ 10) by (intros j Hj; apply num_at_set_char_other; lia).
    rewrite <- H10, Hnew. apply Nat.eqb_neq in Hne. rewrite (Nat.eqb_sym (nat_of_ascii c - 48)), Hne, andb_false_r. reflexivity.
Qed.

(** Replacing either check digit of a valid CNPJ by a different digit
    makes [isValidCNPJ] reject it. *)
Theorem isValidCNPJ_check_digit_change (s : string) (i : nat) (c : ascii) :
  isValidCNPJ s = true -> ((i =? 12) || (i =? 13)) = true -> is_digit c = true ->
  (num_at (only_digits s) i =? nat_of_ascii c - 48) = false ->
  isValidCNPJ (set_char (only_digits s) i c) = false.
Proof.
  intros H Hi Hc Hne.
  set (t := only_digits s) in *.
  assert (Ht : only_digits s = t) by reflexivity.
  unfold isValidCNPJ in H; rewrite Ht in H; cbv zeta in H.
  destruct (String.length t =? 14) eqn:Hl; cbn [negb] in H; [|discriminate H].
  destruct (repeated_digit t); [discriminate H|].
  apply andb_prop in H as [H12 H13]; apply Nat.eqb_eq in H12, H13.
  apply Nat.eqb_eq in Hl.
  set (t' := set_char t i c).
  assert (Hd' : all_digits t' = true)
    by (apply all_digits_set_char; [apply all_digits_only_digits|exact Hc]).
  assert (Hl' : String.length t' = 14) by (unfold t'; rewrite set_char_length; exact Hl).
  assert (Hi' : i < String.length t) by (apply orb_prop in Hi as [E|E]; apply Nat.eqb_eq in E; lia).
  assert (Hnew : num_at t' i = nat_of_ascii c - 48) by (apply num_at_set_char_same; assumption).
  assert (Hb : substring 0 12 t' = substring 0 12 t)
    by (apply substring0_set_char; apply orb_prop in Hi as [E|E]; apply Nat.eqb_eq in E; lia).
  apply Nat.eqb_neq in Hne.
  unfold isValidCNPJ; rewrite (only_digits_all t' Hd'), Hl'; cbn [Nat.eqb negb].
  destruct (repeated_digit t'); [reflexivity|]. cbv zeta. rewrite Hb.
  apply orb_prop in Hi as [E|E]; apply Nat.eqb_eq in E; subst i.
  - rewrite <- H12, Hnew. apply Nat.eqb_neq in Hne. rewrite (Nat.eqb_sym (nat_of_ascii c - 48)), Hne. reflexivity.
  - rewrite <- H13, Hnew. apply Nat.eqb_neq in Hne. rewrite (Nat.eqb_sym (nat_of_ascii c - 48)), Hne, andb_false_r. reflexivity.
Qed.

Section AuditThrows.
Context {N : JSNum}.









End AuditThrows.

Section AuditReports.
Context {N : JSNum}.

Ltac in_cases H :=
  repeat match type of H with
  | In _ (_ ++ _) => apply in_app_or in H; destruct H as [H|H]
  | In _ [] => destruct H
  | In _ (_ :: _) => destruct H as [H|H]
  | In _ (if ?b then _ else _) => destruct b
  | In _ (match ?x with _ => _ end) => destruct x
  end.

Lemma in_error_codes (c : string) :
  existsb (String.eqb c) error_codes = true -> In c error_codes.
Proof.
  intro H; apply existsb_exists in H as [x [Hx E]].
  apply String.eqb_eq in E; subst x; exact Hx.
Qed.

Ltac err_code :=
  let f := fresh "f" in let H := fresh "H" in let Hs := fresh "Hs" in
  intros f H Hs; cbv beta zeta in H; in_cases H; subst; cbn [severity code] in *;
  first [discriminate Hs | apply in_error_codes; reflexivity].

Lemma error_codes_ok_app (l1 l2 : list Finding) :
  error_codes_ok l1 -> error_codes_ok l2 -> error_codes_ok (l1 ++ l2).
Proof. intros H1 H2 f Hf; apply in_app_or in Hf as [Hf|Hf]; [apply H1|apply H2]; exact Hf. Qed.

Lemma item_rule_error_codes (u v : string) (i : nat) (d : jvalue) (fs : list Finding) :
  item_rule u v i d = Normal fs -> error_codes_ok fs.
Proof.
  unfold item_rule; intro H.
  repeat match type of H with
  | bind ?c _ = _ => let a := fresh "g" in destruct c as [a|?]; cbn [bind] in H; [|discriminate H]
  end.
  injection H as <-. unfold error_codes_ok; err_code.
Qed.

Lemma item_rules_error_codes (u v : string) (itens : list jvalue) :
  forall i fs, item_rules u v i itens = Normal fs -> error_codes_ok fs.
Proof.
  induction itens as [|d r IH]; intros i fs H; cbn [item_rules] in H.
  - injection H as <-; intros f [].
  - destruct (item_rule u v i d) as [fs1|] eqn:E1; cbn [bind] in H; [|discriminate H].
    destruct (item_rules u v (S i) r) as [fs2|] eqn:E2; cbn [bind] in H; [|discriminate H].
    injection H as <-. apply error_codes_ok_app;
      [exact (item_rule_error_codes u v i d fs1 E1) | exact (IH (S i) fs2 E2)].
Qed.

(** Every error of a report [auditXml] returns carries one of the ten
    error codes of the module; all other codes only come with warnings
    or infos. *)
Theorem audit_error_codes (parse : string -> completion jvalue) (input : jvalue)
  (r : AuditResult) :
  auditXml parse input = Normal r ->
  forall f, In f (findings r) -> severity f = SevError -> In (code f) error_codes.
Proof.
  unfold auditXml; intro H.
  destruct (InputSchema_safeParse input) as [issues|xml].
  - injection H as <-; unfold summarize; cbn [findings].
    intros f Hf Hs; apply in_map_iff in Hf as [x [<- _]].
    apply in_error_codes; reflexivity.
  - destruct (parseNFeXml parse xml) as [p|e].
    + destruct (negb (truthy (p_infNFe p))).
      * injection H as <-; unfold summarize; cbn [findings]; err_code.
      * destruct (sum_items (p_det p) zero_sums 0) as [acc|] eqn:Es; cbn [bind] in H; [|discriminate H].
        destruct (item_rules _ _ 0 (p_det p)) as [ifs|] eqn:Ei; cbn [bind] in H; [|discriminate H].
        injection H as <-; unfold summarize; cbn [findings].
        apply error_codes_ok_app; [|apply error_codes_ok_app].
        1: apply error_codes_ok_app; [|apply error_codes_ok_app; [|apply error_codes_ok_app;
             [|apply error_codes_ok_app]]].
        -- unfold items_empty_rule, error_codes_ok; err_code.
        -- unfold access_key_rule, key_not_found_finding, key_len_finding, key_dv_unknown_finding,
             key_mismatch_finding, key_ok_finding, error_codes_ok; err_code.
        -- unfold essential_rule, error_codes_ok; err_code.
        -- unfold doc_rule, error_codes_ok; err_code.
        -- unfold uf_cep_rule, error_codes_ok; err_code.
        -- unfold totals_rule, totals_missing_finding, vprod_missing_finding, vprod_rule,
             vdesc_rule, vfrete_rule, vseg_rule, voutro_rule, expense_rule, vnf_rule,
             error_codes_ok; err_code.
        -- exact (item_rules_error_codes _ _ _ 0 ifs Ei).
    + injection H as <-; unfold summarize; cbn [findings]; err_code.
Qed.

Lemma safeParse_single_issue (input : jvalue) (issues : list ZodIssue) :
  InputSchema_safeParse input = inl issues ->
  exists i, issues = [i] /\ (issue_path i = [] \/ issue_path i = ["xml"]).
Proof.
  unfold InputSchema_safeParse; intro H.
  destruct input as [| |b|x|s|l|fs]; try (injection H as <-; eexists; split; [reflexivity|left; reflexivity]).
  destruct (member (JObj fs) "xml") as [| |b|x|s|l|fs']; try (injection H as <-; eexists; split; [reflexivity|right; reflexivity]).
  destruct (10 <=? String.length s); [discriminate H|].
  injection H as <-; eexists; split; [reflexivity|right; reflexivity].
Qed.

Lemma safeParse_inr (input : jvalue) (xml : string) :
  InputSchema_safeParse input = inr xml ->
  exists fs, input = JObj fs /\ member input "xml" = JStr xml /\ 10 <= String.length xml.
Proof.
  unfold InputSchema_safeParse; intro H.
  destruct input as [| |b|x|s|l|fs]; try discriminate H.
  exists fs; split; [reflexivity|].
  destruct (member (JObj fs) "xml") as [| |b|x|s|l|fs']; try discriminate H.
  destruct (10 <=? String.length s) eqn:E; [|discriminate H].
  injection H as <-; split; [reflexivity|apply Nat.leb_le, E].
Qed.

(** An input that is not an object whose [xml] member is a text of at
    least 10 characters gets a report with exactly one finding: the
    [INPUT_INVALID] error, located at [xml]; the report is not ok, counts
    no items, and is the same whatever the XML parser is (the parser is
    never called). *)
Theorem auditXml_input_invalid (parse : string -> completion jvalue) (input : jvalue) :
  ~ (exists fs s, input = JObj fs /\ member input "xml" = JStr s /\ 10 <= String.length s) ->
  exists r f, auditXml parse input = Normal r /\
    findings r = [f] /\ severity f = SevError /\ code f = "INPUT_INVALID" /\
    path f = Some "xml" /\ ok r = false /\ itemsCount (meta r) = 0 /\
    (forall parse', auditXml parse' input = Normal r).
Proof.
  intro Hn.
  destruct (InputSchema_safeParse input) as [issues|xml] eqn:E.
  - destruct (safeParse_single_issue input issues E) as [i [-> Hp]].
    exists (summarize [input_invalid_finding i] 0 false None None None), (input_invalid_finding i).
    unfold auditXml; rewrite E.
    split; [reflexivity|]. split; [reflexivity|]. split; [reflexivity|]. split; [reflexivity|].
    split; [unfold input_invalid_finding; cbn [path]; destruct Hp as [-> | ->]; reflexivity|].
    split; [reflexivity|]. split; [reflexivity|].
    intro parse'; reflexivity.
  - exfalso; apply Hn. destruct (safeParse_inr input xml E) as (fs & H1 & H2 & H3).
    exists fs, xml; auto.
Qed.

Lemma no_errors_in (fs : list Finding) :
  count_severity SevError fs = 0 -> forall f, In f fs -> severity f <> SevError.
Proof.
  unfold count_severity; induction fs as [|g fs IH]; intros H f Hf; [destruct Hf|].
  cbn [filter] in H. destruct (severity_eqb (severity g) SevError) eqn:Eg; [discriminate H|].
  destruct Hf as [<-|Hf]; [|exact (IH H f Hf)].
  intro Hs; rewrite Hs in Eg; discriminate Eg.
Qed.

Lemma totals_rule_vprod_error (totals : jvalue) (m : nat) (s : Sums) (t : Totals) (tot : num) :
  truthy totals = true -> t_vProd t = Some tot ->
  exceeds_cent (round2 (num_sub (s_vProd s) tot)) = true ->
  exists f, In f (totals_rule totals m s t) /\ severity f = SevError.
Proof.
  intros Ht Htot Ex. unfold totals_rule; rewrite Ht; cbn [negb].
  unfold vprod_rule; rewrite Htot; cbv zeta; rewrite Ex.
  eexists; split; [apply in_or_app; right; apply in_or_app; left; left; reflexivity|reflexivity].
Qed.

Lemma item_rule_qcom (u v : string) (i : nat) (d g : jvalue) (q : num) (fs : list Finding) :
  item_rule u v i d = Normal fs -> get d "prod.qCom" = Normal g -> toNumber g = Some q ->
  num_le q (num_lit 0) = true ->
  exists f, In f fs /\ severity f = SevError /\ code f = "ITEM_QCOM_ZERO".
Proof.
  intros H Hg Hq Hle. unfold item_rule in H; rewrite Hg in H; cbn [bind] in H.
  repeat match type of H with
  | bind ?c _ = _ => let a := fresh "g" in destruct c as [a|?]; cbn [bind] in H; [|discriminate H]
  end.
  injection H as <-. cbv zeta. rewrite Hq, Hle.
  eexists; split; [apply in_or_app; left; left; reflexivity|split; reflexivity].
Qed.

Lemma item_rules_qcom (u v : string) (itens : list jvalue) :
  forall i fs d g q, item_rules u v i itens = Normal fs -> In d itens ->
  get d "prod.qCom" = Normal g -> toNumber g = Some q -> num_le q (num_lit 0) = true ->
  exists f, In f fs /\ severity f = SevError /\ code f = "ITEM_QCOM_ZERO".
Proof.
  induction itens as [|d0 r IH]; intros i fs d g q H Hd Hg Hq Hle; [destruct Hd|].
  cbn [item_rules] in H.
  destruct (item_rule u v i d0) as [fs1|] eqn:E1; cbn [bind] in H; [|discriminate H].
  destruct (item_rules u v (S i) r) as [fs2|] eqn:E2; cbn [bind] in H; [|discriminate H].
  injection H as <-. destruct Hd as [<-|Hd].
  - destruct (item_rule_qcom u v i d0 g q fs1 E1 Hg Hq Hle) as [f [Hf Hs]].
    exists f; split; [apply in_or_app; left; exact Hf|exact Hs].
  - destruct (IH (S i) fs2 d g q E2 Hd Hg Hq Hle) as [f [Hf Hs]].
    exists f; split; [apply in_or_app; right; exact Hf|exact Hs].
Qed.

(** A report with [ok = true] certifies what the error rules check: the
    input was accepted and parsed, [infNFe] is present with at least one
    item, [ide] and [emit] are present, a present emitter CNPJ/CPF passes
    its check digits, a 44-digit access key has the right check digit, a
    declared [ICMSTot.vProd] matches the rounded item sum within a cent,
    and no item has a numeric [qCom] at or below zero. *)
Theorem audit_ok_certifies (parse : string -> completion jvalue) (input : jvalue)
  (r : AuditResult) :
  auditXml parse input = Normal r -> ok r = true ->
  exists xml raw,
    InputSchema_safeParse input = inr xml /\ parse xml = Normal raw /\
    let p := parseNFe_tree raw in
    truthy (p_infNFe p) = true /\ p_det p <> [] /\
    truthy (p_ide p) = true /\ truthy (p_emit p) = true /\
    (truthy (nullish (member (p_emit p) "CNPJ") (member (p_emit p) "CPF")) = true ->
       doc_valid (nullish (member (p_emit p) "CNPJ") (member (p_emit p) "CPF")) = true) /\
    (forall k, p_accessKey p = Some k -> String.length (only_digits k) = 44 ->
       nfe_key_dv_spec (substring 0 43 (only_digits k)) = num_at (only_digits k) 43) /\
    (truthy (p_totals p) = true ->
       forall tot acc, t_vProd (declared_totals (p_totals p)) = Some tot ->
       sum_items (p_det p) zero_sums 0 = Normal acc ->
       exceeds_cent (round2 (num_sub (s_vProd (round_sums (fst acc))) tot)) = false) /\
    (forall d g q, In d (p_det p) -> get d "prod.qCom" = Normal g -> toNumber g = Some q ->
       num_le q (num_lit 0) = false).
Proof.
  intros H Hok. unfold auditXml in H.
  destruct (InputSchema_safeParse input) as [issues|xml] eqn:Ein.
  { exfalso. destruct (safeParse_single_issue input issues Ein) as [i [-> _]].
    injection H as <-; discriminate Hok. }
  unfold parseNFeXml in H. destruct (parse xml) as [raw|e] eqn:Ep; cbn [bind] in H;
    [|injection H as <-; discriminate Hok].
  exists xml, raw; split; [reflexivity|split; [exact Ep|]]. cbv zeta.
  set (p := parseNFe_tree raw) in *.
  destruct (truthy (p_infNFe p)) eqn:Et; cbn [negb] in H; [|injection H as <-; discriminate Hok].
  destruct (sum_items (p_det p) zero_sums 0) as [acc|] eqn:Es; cbn [bind] in H; [|discriminate H].
  destruct (item_rules _ _ 0 (p_det p)) as [ifs|] eqn:Ei; cbn [bind] in H; [|discriminate H].
  injection H as <-. unfold summarize in Hok.
  apply Nat.eqb_eq in Hok.
  pose proof (no_errors_in _ Hok) as Herr; clear Hok.
  (* a finding of one of the stages that is an error contradicts [ok] *)
  assert (Hhead : forall f, In f (items_empty_rule p ++ access_key_rule (p_accessKey p)
                    ++ essential_rule p ++ doc_rule p
                    ++ uf_cep_rule p (uf_of (p_emit p) "enderEmit") (uf_of (p_dest p) "enderDest"))%list ->
                  severity f <> SevError).
  { intros f Hf; apply Herr, in_or_app; left; exact Hf. }
  split; [reflexivity|]. split; [|split; [|split; [|split; [|split; [|split]]]]].
  - intro E. apply (Hhead (mkFinding SevError "ITEMS_EMPTY" "Sem itens" "A NF-e não possui itens (det)."
       (Some "NFe.infNFe.det")
       (Some "Verifique se o XML está completo. Uma NF-e válida deve conter ao menos 1 item.")));
      [|reflexivity].
    apply in_or_app; left. unfold items_empty_rule; rewrite E; left; reflexivity.
  - destruct (truthy (p_ide p)) eqn:Ei'; [reflexivity|exfalso].
    eapply Hhead; [
      apply in_or_app; right; apply in_or_app; right; apply in_or_app; left; unfold essential_rule; rewrite Ei'; left; reflexivity|reflexivity].
  - destruct (truthy (p_emit p)) eqn:Ee; [reflexivity|exfalso].
    eapply Hhead; [
      apply in_or_app; right; apply in_or_app; right; apply in_or_app; left; unfold essential_rule; rewrite Ee; apply in_or_app; right; left; reflexivity|reflexivity].
  - intro Ht. destruct (doc_valid _) eqn:Ev; [reflexivity|exfalso].
    eapply Hhead; [
      apply in_or_app; right; apply in_or_app; right; apply in_or_app; right; apply in_or_app; left; unfold doc_rule; cbv zeta; rewrite Ht, Ev; apply in_or_app; left; left; reflexivity|reflexivity].
  - intros k Hk Hl.
    pose proof (calcNfeKeyDV_44 (only_digits k) (all_digits_only_digits k) Hl) as Hdv.
    destruct (nfe_key_dv_spec (substring 0 43 (only_digits k)) =? num_at (only_digits k) 43) eqn:Ed;
      [apply Nat.eqb_eq, Ed|exfalso].
    eapply Hhead; [
      apply in_or_app; right; apply in_or_app; left; rewrite Hk; unfold access_key_rule; destruct (String.eqb_spec k "") as [E|_]; [exfalso; exact (only_digits_nonempty k Hl E)|]; rewrite Hl, Hdv, Ed; left; reflexivity|reflexivity].
  - intros Ht tot acc' Htot Es'. injection Es' as <-.
    destruct (exceeds_cent _) eqn:Ex; [exfalso|reflexivity].
    destruct (totals_rule_vprod_error _ (snd acc) _ _ tot Ht Htot Ex) as [f [Hf Hs]].
    apply (Herr f); [apply in_or_app; right; apply in_or_app; left; exact Hf|exact Hs].
  - intros d g q Hd Hg Hq. destruct (num_le q (num_lit 0)) eqn:Hle; [exfalso|reflexivity].
    destruct (item_rules_qcom _ _ _ 0 ifs d g q Ei Hd Hg Hq Hle) as [f [Hf [Hs _]]].
    apply (Herr f); [apply in_or_app; right; apply in_or_app; right; exact Hf|exact Hs].
Qed.

End AuditReports.

(** ** Per-item findings and the CFOP heuristics *)

Section ItemProps.
Context {N : JSNum}.

Ltac in_cases_eq H :=
  repeat match type of H with
  | In _ (_ ++ _) => apply in_app_or in H; destruct H as [H|H]
  | In _ [] => destruct H
  | In _ (_ :: _) => destruct H as [H|H]
  | In _ (if ?b then _ else _) => let E := fresh "E" in destruct b eqn:E
  | In _ (match ?x with _ => _ end) => let E := fresh "E" in destruct x eqn:E
  end.

Ltac split_item_binds H :=
  repeat match type of H with
  | bind ?c _ = _ =>
      let a := fresh "g" in let E := fresh "Eg" in
      destruct c as [a|?] eqn:E; cbn [bind] in H; [|discriminate H]
  end.

Lemma label_message (i : nat) (c m : string) :
  exists rest, (item_label i c ++ m)%string = ("Item " ++ nat_to_string (i + 1) ++ rest)%string.
Proof. unfold item_label; eexists; rewrite !str_app_assoc; reflexivity. Qed.

Lemma locate_mk (s : Severity) (c t lbl m fld : string) (h : option string) (i : nat) :
  In (c, fld) item_codes ->
  exists field rest,
    In (code (mkFinding s c t (item_label i lbl ++ m) (Some (det_path i fld)) h), field) item_codes /\
    path (mkFinding s c t (item_label i lbl ++ m) (Some (det_path i fld)) h) = Some (det_path i field) /\
    message (mkFinding s c t (item_label i lbl ++ m) (Some (det_path i fld)) h)
      = ("Item " ++ nat_to_string (i + 1) ++ rest)%string.
Proof.
  intro Hc; destruct (label_message i lbl m) as [rest Hr].
  exists fld, rest; split; [exact Hc|split; [reflexivity|exact Hr]].
Qed.

Lemma item_rule_locates (u v : string) (i : nat) (d : jvalue) (fs : list Finding) :
  item_rule u v i d = Normal fs ->
  forall f, In f fs -> exists field rest,
    In (code f, field) item_codes /\ path f = Some (det_path i field) /\
    message f = ("Item " ++ nat_to_string (i + 1) ++ rest)%string.
Proof.
  unfold item_rule; intro H; split_item_binds H.
  injection H as <-. intros f Hf; cbv beta zeta in Hf; in_cases_eq Hf; subst f;
  apply locate_mk; cbn [item_codes In]; tauto.
Qed.

(** Every finding of the per-item rules names the item it is about: its
    code is one of the six item codes, its path is
    [NFe.infNFe.det[i].prod.<field>] with the field that code checks and
    [i] below the number of items, and its message begins with
    [Item <i+1>]. *)
Theorem item_findings_locate_item (u v : string) (itens : list jvalue) (fs : list Finding) :
  item_rules u v 0 itens = Normal fs ->
  forall f, In f fs -> exists i field rest,
    i < List.length itens /\ In (code f, field) item_codes /\
    path f = Some (det_path i field) /\
    message f = ("Item " ++ nat_to_string (i + 1) ++ rest)%string.
Proof.
  assert (G : forall itens i fs, item_rules u v i itens = Normal fs ->
            forall f, In f fs -> exists j field rest,
              i <= j < i + List.length itens /\ In (code f, field) item_codes /\
              path f = Some (det_path j field) /\
              message f = ("Item " ++ nat_to_string (j + 1) ++ rest)%string).
  { induction itens0 as [|d r IH]; intros i fs0 H f Hf; cbn [item_rules] in H.
    - injection H as <-; destruct Hf.
    - destruct (item_rule u v i d) as [fs1|] eqn:E1; cbn [bind] in H; [|discriminate H].
      destruct (item_rules u v (S i) r) as [fs2|] eqn:E2; cbn [bind] in H; [|discriminate H].
      injection H as <-. apply in_app_or in Hf as [Hf|Hf].
      + destruct (item_rule_locates u v i d fs1 E1 f Hf) as (field & rest & H1 & H2 & H3).
        exists i, field, rest; cbn [List.length]; repeat split; try assumption; lia.
      + destruct (IH (S i) fs2 E2 f Hf) as (j & field & rest & Hj & H1 & H2 & H3).
        exists j, field, rest; cbn [List.length]; repeat split; try assumption; lia. }
  intros H f Hf; destruct (G itens 0 fs H f Hf) as (j & field & rest & Hj & H1 & H2 & H3).
  exists j, field, rest; repeat split; try assumption; lia.
Qed.






End ItemProps.

Section RouteProps.
Context {N : JSNum}.

(** The API route answers 200 with the report exactly when the body is
    JSON and [auditXml] returns, and 500 with the [SERVER_ERROR] report
    otherwise; in both cases the report's [ok] is [errors = 0] and its
    counters count the findings of each severity. *)
Theorem POST_response (parse : string -> completion jvalue) (body : option jvalue) :
  (forall r, status (POST parse body) = 200 /\ response_body (POST parse body) = r <->
     exists b, body = Some b /\ auditXml parse b = Normal r) /\
  (status (POST parse body) = 500 <->
     body = None \/ exists b e, body = Some b /\ auditXml parse b = Throw e) /\
  (status (POST parse body) = 500 -> response_body (POST parse body) = server_error_result) /\
  ok (response_body (POST parse body)) = (errors (summary (response_body (POST parse body))) =? 0) /\
  errors (summary (response_body (POST parse body)))
    = count_severity SevError (findings (response_body (POST parse body))) /\
  warnings (summary (response_body (POST parse body)))
    = count_severity SevWarning (findings (response_body (POST parse body))) /\
  infos (summary (response_body (POST parse body)))
    = count_severity SevInfo (findings (response_body (POST parse body))).
Proof.
  unfold POST. destruct body as [b|].
  - destruct (auditXml parse b) as [r|e] eqn:E.
    + destruct (auditXml_summarize parse b r E) as (fs & ic & h & ak & t & s & Hr).
      cbn [status response_body].
      split; [|split; [|split; [|rewrite Hr; unfold summarize; cbn; repeat split]]].
      * intro r'; split.
        -- intros [_ <-]; exists b; split; [reflexivity|exact E].
        -- intros (b' & Hb & Hr'); injection Hb as <-; rewrite E in Hr'; injection Hr' as ->.
           split; reflexivity.
      * split; [discriminate|intros [Hb|(b' & e & Hb & He)]; [discriminate Hb|]].
        injection Hb as <-; rewrite E in He; discriminate He.
      * discriminate.
    + cbn [status response_body].
      split; [|split; [|split; [|repeat split]]].
      * intro r'; split; [intros [H _]; discriminate H|].
        intros (b' & Hb & Hr'); injection Hb as <-; rewrite E in Hr'; discriminate Hr'.
      * split; [intros _; right; exists b, e; split; [reflexivity|exact E]|reflexivity].
      * reflexivity.
  - cbn [status response_body].
    split; [|split; [|split; [|repeat split]]].
    + intro r'; split; [intros [H _]; discriminate H|intros (b' & Hb & _); discriminate Hb].
    + split; [intros _; left; reflexivity|reflexivity].
    + reflexivity.
Qed.

End RouteProps.

(** ** The CSV export reads back as its table *)

Section CsvProps.
Context {N : JSNum}.

Lemma csv_sep_state (l : string) (st : csv_state) (field : list ascii) (row : list string)
  (rows : list (list string)) :
  st <> InQuoted -> csv_terminated l ->
  csv_lex l st field row rows = csv_lex l InPlain field row rows.
Proof.
  intros Hst [->|(l' & [->| ->])]; destruct st; try (exfalso; apply Hst; reflexivity); reflexivity.
Qed.

Lemma csv_plain_run (s l : string) (field : list ascii) (row : list string)
  (rows : list (list string)) :
  needs_quotes s = false ->
  csv_lex (s ++ l) InPlain field row rows
  = csv_lex l InPlain (rev (list_ascii_of_string s) ++ field) row rows.
Proof.
  revert field; induction s as [|c r IH]; intros field Hn; [reflexivity|].
  cbn [needs_quotes] in Hn.
  apply orb_false_elim in Hn as [Hn Hr]; apply orb_false_elim in Hn as [Hn Hl];
    apply orb_false_elim in Hn as [Hq Hc].
  cbn [String.append csv_lex]; rewrite Hc, Hl, Hq.
  rewrite (IH (c :: field) Hr). cbn [list_ascii_of_string rev].
  rewrite <- app_assoc; reflexivity.
Qed.

Lemma csv_quoted_run (s l : string) (field : list ascii) (row : list string)
  (rows : list (list string)) :
  csv_lex (double_quotes s ++ String dquote l) InQuoted field row rows
  = csv_lex l AfterQuote (rev (list_ascii_of_string s) ++ field) row rows.
Proof.
  revert field; induction s as [|c r IH]; intro field; [reflexivity|].
  cbn [double_quotes list_ascii_of_string rev].
  destruct (Ascii.eqb c dquote) eqn:Eq.
  - apply Ascii.eqb_eq in Eq; subst c.
    cbn [String.append csv_lex]. rewrite IH, <- app_assoc; reflexivity.
  - cbn [String.append csv_lex]; rewrite Eq, IH, <- app_assoc; reflexivity.
Qed.

Lemma csv_field (s l : string) (row : list string) (rows : list (list string)) :
  csv_terminated l ->
  csv_lex (csvEscape_string s ++ l) AtStart [] row rows
  = csv_lex l InPlain (rev (list_ascii_of_string s)) row rows.
Proof.
  intro Hl. unfold csvEscape_string. destruct (needs_quotes s) eqn:Hn.
  - cbn [String.append]. rewrite str_app_assoc. cbn [String.append].
    cbn [csv_lex]. change (Ascii.eqb dquote ","%char) with false.
    change (Ascii.eqb dquote newline) with false. change (Ascii.eqb dquote dquote) with true.
    cbv iota beta.
    rewrite csv_quoted_run, app_nil_r.
    apply csv_sep_state; [discriminate|exact Hl].
  - destruct s as [|c r].
    + apply csv_sep_state; [discriminate|exact Hl].
    + cbn [needs_quotes] in Hn.
      pose proof Hn as Hn'.
      apply orb_false_elim in Hn as [Hn Hr]; apply orb_false_elim in Hn as [Hn Hc];
        apply orb_false_elim in Hn as [Hq Hcm].
      cbn [String.append csv_lex]; rewrite Hcm, Hc, Hq.
      rewrite (csv_plain_run r l [c] row rows Hr). reflexivity.
Qed.

Lemma field_text (s : string) :
  string_of_list_ascii (rev (rev (list_ascii_of_string s))) = s.
Proof. rewrite rev_involutive; apply string_of_list_ascii_of_string. Qed.

Lemma csv_row (cs : list string) (l : string) (row : list string) (rows : list (list string)) :
  cs <> [] -> (l = EmptyString \/ exists l', l = String newline l') ->
  csv_lex (String.concat "," (map csvEscape_string cs) ++ l) AtStart [] row rows
  = row_end l (rev row ++ cs)%list rows.
Proof.
  intros Hcs Hl. revert row; induction cs as [|c cs IH]; intro row; [contradiction Hcs; reflexivity|].
  destruct cs as [|c2 cs].
  - cbn [map String.concat].
    rewrite csv_field by (destruct Hl as [->|(l' & ->)]; [left|right; exists l'; right]; reflexivity).
    destruct Hl as [->|(l' & ->)]; cbn [csv_lex row_end]; rewrite field_text;
      [|change (Ascii.eqb newline ","%char) with false; change (Ascii.eqb newline newline) with true;
        cbv iota beta];
      reflexivity.
  - change (String.concat "," (map csvEscape_string (c :: c2 :: cs)))
      with (csvEscape_string c ++ String ","%char (String.concat "," (map csvEscape_string (c2 :: cs))))%string.
    rewrite str_app_assoc. cbn [String.append].
    rewrite csv_field by (right; eexists; left; reflexivity).
    cbn [csv_lex]; change (Ascii.eqb ","%char ","%char) with true; cbv iota beta.
    rewrite field_text, (IH ltac:(discriminate) (c :: row)).
    cbn [rev]; rewrite <- app_assoc; reflexivity.
Qed.

Lemma csv_lines (first : list string) (more : list (list string)) (rows : list (list string)) :
  Forall (fun cs => cs <> []) (first :: more) ->
  csv_lex (String.concat (String newline EmptyString)
             (map (fun cs => String.concat "," (map csvEscape_string cs)) (first :: more)))
          AtStart [] [] rows
  = Some (rev rows ++ first :: more)%list.
Proof.
  revert first rows; induction more as [|nxt more IH]; intros first rows Hne;
    inversion Hne as [|? ? Hf Hrest]; subst.
  - cbn [map String.concat].
    rewrite <- (str_app_nil_r (String.concat "," _)).
    rewrite (csv_row first "" [] rows Hf (or_introl eq_refl)). reflexivity.
  - change (String.concat (String newline EmptyString)
              (map (fun cs => String.concat "," (map csvEscape_string cs)) (first :: nxt :: more)))
      with (String.concat "," (map csvEscape_string first)
            ++ String newline (String.concat (String newline EmptyString)
                 (map (fun cs => String.concat "," (map csvEscape_string cs)) (nxt :: more))))%string.
    rewrite (csv_row first _ [] rows Hf (or_intror (ex_intro _ _ eq_refl))).
    cbn [row_end rev app]. rewrite (IH nxt (first :: rows) Hrest).
    cbn [rev]; rewrite <- app_assoc; reflexivity.
Qed.

(** Read back as CSV (fields separated by commas, records by line feeds,
    a field in double quotes when it holds a quote, a comma or a line
    feed, with its quotes doubled), the text [exportBatchCsv] downloads
    gives back the header row followed by exactly the cells of each batch
    row, in order, whatever the file names and keys contain. *)
Theorem exportBatchCsv_roundtrip (batchRows : list BatchRow) :
  csv_read (exportBatchCsv batchRows) = Some (csv_headers :: map batch_cells batchRows).
Proof.
  unfold csv_read, exportBatchCsv.
  change (String.concat "," csv_headers) with (String.concat "," (map csvEscape_string csv_headers)).
  rewrite <- (map_map batch_cells (fun cs => String.concat "," (map csvEscape_string cs))).
  change (String.concat "," (map csvEscape_string csv_headers)
          :: map (fun cs => String.concat "," (map csvEscape_string cs)) (map batch_cells batchRows))
    with (map (fun cs => String.concat "," (map csvEscape_string cs))
            (csv_headers :: map batch_cells batchRows)).
  rewrite csv_lines; [reflexivity|].
  constructor; [discriminate|].
  apply Forall_forall; intros cs Hcs; apply in_map_iff in Hcs as [r [<- _]]; discriminate.
Qed.

End CsvProps.

(** ** The findings list of the page *)

Section FilterProps.
Context {N : JSNum}.

Lemma severity_eqb_eq (a b : Severity) : severity_eqb a b = true <-> a = b.
Proof. destruct a, b; cbn; split; intro H; congruence. Qed.

Lemma filter_filter_and {A : Type} (p q : A -> bool) (l : list A) :
  List.filter q (List.filter p l) = List.filter (fun x => p x && q x) l.
Proof.
  induction l as [|x l IH]; [reflexivity|]; cbn [List.filter].
  destruct (p x); cbn [andb List.filter]; [destruct (q x)|]; rewrite ?IH; reflexivity.
Qed.

(** The findings list of the page shows a selection of the report's
    findings in their order; with a severity tab chosen, every finding
    shown has that severity, and with a blank search box the tab shows
    all findings of that severity, as many as [summarize] counts for it;
    without a report it is empty. *)
Theorem filtered_selects (toLowerCase : string -> string) (result : option AuditResult)
  (flt : SeverityFilter) (query : string) :
  (result = None -> filtered toLowerCase result flt query = []) /\
  (forall res, result = Some res ->
     (exists p, filtered toLowerCase result flt query = List.filter p (findings res)) /\
     (forall s f, flt = FilterSev s -> In f (filtered toLowerCase result flt query) -> severity f = s) /\
     (forall s, flt = FilterSev s -> toLowerCase (trim query) = "" ->
        List.length (filtered toLowerCase result flt query) = count_severity s (findings res))).
Proof.
  split; [intros ->; reflexivity|]. intros res ->. unfold filtered.
  split; [|split].
  - destruct flt as [|s]; destruct (String.eqb (toLowerCase (trim query)) "").
    + exists (fun _ => true); rewrite filter_true; reflexivity.
    + eexists; reflexivity.
    + eexists; reflexivity.
    + rewrite filter_filter_and; eexists; reflexivity.
  - intros s f -> Hf.
    assert (Hb : In f (List.filter (fun f => severity_eqb (severity f) s) (findings res))).
    { destruct (String.eqb _ _); [exact Hf|apply filter_In in Hf as [Hf _]; exact Hf]. }
    apply filter_In in Hb as [_ Hb]; apply severity_eqb_eq, Hb.
  - intros s -> Hq; rewrite Hq; reflexivity.
Qed.

End FilterProps.

Import QModel.

Lemma audit_throws_on_text_item_witness :
  table_parser primitive_item_xml primitive_item_tree primitive_item_xml
    = Normal primitive_item_tree /\
  auditXml (table_parser primitive_item_xml primitive_item_tree)
    (xml_input primitive_item_xml) = Throw TypeError.
Proof.
  split; [reflexivity|].
  apply audit_throws_on_text_item; reflexivity.
Defined.

Lemma audit_ok_iff_no_errors_witness :
  exists r, auditXml (table_parser discount_match_xml discount_match_tree)
                     (xml_input discount_match_xml) = Normal r /\
            (ok r = true <-> count_severity SevError (findings r) = 0).
Proof.
  eexists; split; [vm_compute; reflexivity|].
  apply (audit_ok_iff_no_errors (table_parser discount_match_xml discount_match_tree)
           (xml_input discount_match_xml)).
  vm_compute; reflexivity.
Defined.

Lemma audit_summary_partitions_findings_witness :
  exists r, auditXml (table_parser no_totals_xml no_totals_tree)
                     (xml_input no_totals_xml) = Normal r /\
   errors (summary r) = count_severity SevError (findings r) /\
   warnings (summary r) = count_severity SevWarning (findings r) /\
   infos (summary r) = count_severity SevInfo (findings r) /\
   errors (summary r) + warnings (summary r) + infos (summary r) = List.length (findings r).
Proof.
  eexists; split; [vm_compute; reflexivity|].
  apply (audit_summary_partitions_findings (table_parser no_totals_xml no_totals_tree)
           (xml_input no_totals_xml)).
  vm_compute; reflexivity.
Defined.


Example no_infnfe_meta :
  p_hasNfeProc (parseNFe_tree no_infnfe_tree) = true /\
  p_accessKey (parseNFe_tree no_infnfe_tree)
    = Some "35190843061064000183550010000000171000000017".
Proof. vm_compute; split; reflexivity. Qed.

(** ** Check digits *)

Lemma weighted_sum_ext (s : string) (w w' : nat -> nat) (n : nat) :
  (forall i, i < n -> w i = w' i) -> weighted_sum s w n = weighted_sum s w' n.
Proof.
  induction n as [|n IH]; intro Hw; simpl; [reflexivity|].
  rewrite IH by (intros; apply Hw; lia). rewrite Hw by lia. reflexivity.
Qed.

(** C4 (as stated): the spec's weights 9..1 / 10..1 reject a CPF that
    the validator accepts. *)
Lemma cpf_spec_weights_counterexample :
  isValidCPF "52998224725" = true /\ cpf_spec_accepts "52998224725" = false.
Proof. split; reflexivity. Qed.

(** C4 (amended): [isValidCPF] accepts exactly the values with 11 digits,
    not one repeated digit, whose check digits are those of weights
    10..2 over the first 9 digits and 11..2 over the first 10 digits
    (the 10th being the computed first check digit), modulus-11 rule
    [remainder < 2 -> 0 else 11 - remainder]. *)
Theorem isValidCPF_standard (cpfRaw : string) :
  isValidCPF cpfRaw = cpf_standard_accepts cpfRaw.
Proof.
  unfold isValidCPF, cpf_standard_accepts; cbv beta zeta.
  set (c := only_digits cpfRaw).
  change (fun i => 9 + 1 - i) with (fun i => 10 - i).
  change (weighted_sum c (fun i => 11 - i) 10) with
    (weighted_sum c (fun i => 11 - i) 9 + num_at c 9 * 2).
  set (d1 := mod11_digit (weighted_sum c (fun i => 10 - i) 9)).
  destruct (String.length c =? 11); cbn [negb andb]; [|reflexivity].
  destruct (repeated_digit c); cbn [negb andb]; [reflexivity|].
  destruct (num_at c 9 =? d1) eqn:E; cbn [andb]; [|reflexivity].
  apply Nat.eqb_eq in E; rewrite E; reflexivity.
Qed.

Definition sample_key : string := "35190843061064000183550010000000171000000017".

Lemma access_key_check_digit_witness :
  String.length (only_digits sample_key) = 44 /\
  calcNfeKeyDV (only_digits sample_key)
    = Some (nfe_key_dv_spec (substring 0 43 (only_digits sample_key))) /\
  access_key_rule (Some sample_key) =
    (if nfe_key_dv_spec (substring 0 43 (only_digits sample_key)) =? num_at (only_digits sample_key) 43
     then [key_ok_finding]
     else [key_mismatch_finding (num_at (only_digits sample_key) 43)
                                (nfe_key_dv_spec (substring 0 43 (only_digits sample_key)))]) /\
  severity key_ok_finding = SevInfo /\
  (forall a b, severity (key_mismatch_finding a b) = SevError) /\
  (nfe_key_dv_spec (substring 0 43 (only_digits sample_key)) = num_at (only_digits sample_key) 43 ->
   calcNfeKeyDV (substring 0 43 (only_digits sample_key)) = Some (num_at (only_digits sample_key) 43)).
Proof.
  split; [reflexivity|].
  apply access_key_check_digit; reflexivity.
Defined.

Lemma calcNfeKeyDV_total_on_44_witness :
  String.length (only_digits sample_key) = 44 /\
  exists d, calcNfeKeyDV (only_digits sample_key) = Some d /\ d <= 9 /\
    forall f, In f (access_key_rule (Some sample_key)) -> code f <> "ACCESS_KEY_DV_UNKNOWN".
Proof.
  split; [reflexivity|].
  apply calcNfeKeyDV_total_on_44; reflexivity.
Defined.

Example sample_key_valid : access_key_rule (Some sample_key) = [key_ok_finding].
Proof. vm_compute; reflexivity. Qed.

Lemma access_key_missing_or_short_witness :
  exists r,
  auditXml (table_parser short_key_xml short_key_tree) (xml_input short_key_xml) = Normal r /\
  p_accessKey (parseNFe_tree short_key_tree) = Some "3519084306106400018355001000000017100000" /\
  ((p_accessKey (parseNFe_tree short_key_tree) = None ->
     In key_not_found_finding (findings r) /\
     severity key_not_found_finding = SevWarning /\
     forall f, In f (findings r) -> access_key_code (code f) = true -> f = key_not_found_finding) /\
  (forall k, p_accessKey (parseNFe_tree short_key_tree) = Some k ->
     String.length (only_digits k) <> 44 ->
     In (key_len_finding (String.length (only_digits k))) (findings r) /\
     severity (key_len_finding (String.length (only_digits k))) = SevWarning /\
     (forall f, In f (findings r) -> access_key_code (code f) = true ->
                f = key_len_finding (String.length (only_digits k))) /\
     (forall f, In f (findings r) -> code f <> "ACCESS_KEY_DV_MISMATCH"))).
Proof.
  eexists; split; [vm_compute; reflexivity|].
  split; [vm_compute; reflexivity|].
  apply (access_key_missing_or_short (table_parser short_key_xml short_key_tree)
           (xml_input short_key_xml) short_key_xml short_key_tree);
    vm_compute; reflexivity.
Defined.

(** C3 (as stated): a matching discount does produce a positive
    [TOTAL_VDESC_OK] info finding in the report. *)
Lemma discount_ok_finding_counterexample :
  exists r,
    auditXml (table_parser discount_match_xml discount_match_tree)
             (xml_input discount_match_xml) = Normal r /\
    existsb (fun f => String.eqb (code f) "TOTAL_VDESC_OK" && severity_eqb (severity f) SevInfo)
            (findings r) = true.
Proof. eexists; split; vm_compute; reflexivity. Qed.

Lemma expense_comparisons_witness :
  positive ((num_lit 5 : num)) = true /\ exceeds_cent (round2 (num_sub ((num_lit 5 : num)) ((num_lit 5 : num)))) = false /\
  vfrete_rule ((num_lit 5 : num)) (Some ((num_lit 5 : num))) = [] /\
  map (fun f => (severity f, code f)) (vdesc_rule ((num_lit 5 : num)) (Some ((num_lit 5 : num))))
    = [(SevInfo, "TOTAL_VDESC_OK")].
Proof.
  split; [vm_compute; reflexivity|]. split; [vm_compute; reflexivity|].
  destruct (expense_comparisons ((num_lit 5 : num)) (Some ((num_lit 5 : num)))) as (_ & _ & H3).
  destruct (H3 ((num_lit 5 : num)) eq_refl ltac:(vm_compute; reflexivity) ltac:(vm_compute; reflexivity))
    as (Hf & _ & _ & Hd).
  split; [exact Hf|exact Hd].
Defined.

(** C7 (as stated): with no [total] block, an item lacking [vProd] gets
    no [ITEM_VPROD_MISSING] warning although the count is 1. *)
Lemma vprod_missing_without_totals_counterexample :
  vprod_missing_count (p_det (parseNFe_tree no_totals_tree)) = 1 /\
  exists r,
    auditXml (table_parser no_totals_xml no_totals_tree) (xml_input no_totals_xml) = Normal r /\
    has_code "ITEM_VPROD_MISSING" (findings r) = false /\
    has_code "TOTALS_MISSING" (findings r) = true.
Proof. split; [vm_compute; reflexivity|]. eexists; split; [vm_compute; reflexivity|split; vm_compute; reflexivity]. Qed.

Lemma totals_block_and_vprod_count_witness :
  truthy (p_totals (parseNFe_tree discount_match_tree)) = true /\
  (exists rest, totals_rule (p_totals (parseNFe_tree discount_match_tree)) 2 zero_sums
                   (declared_totals (p_totals (parseNFe_tree discount_match_tree)))
                 = vprod_missing_finding 2 :: rest).
Proof.
  split; [vm_compute; reflexivity|].
  destruct (totals_block_and_vprod_count (p_totals (parseNFe_tree discount_match_tree)) 2
              zero_sums (declared_totals (p_totals (parseNFe_tree discount_match_tree))))
    as (_ & H2 & _).
  exact (proj1 (H2 ltac:(vm_compute; reflexivity) ltac:(lia))).
Defined.

(** ** Witnesses of the further properties *)

Lemma extractAccessKey_44_digits_witness :
  extractAccessKeyFromInfNFeId (JStr valid_id) = Some sample_key /\
  all_digits sample_key = true /\ String.length sample_key = 44.
Proof.
  split; [vm_compute; reflexivity|].
  apply (extractAccessKey_44_digits (JStr valid_id)); vm_compute; reflexivity.
Defined.

Lemma extractAccessKey_roundtrip_witness :
  all_digits sample_key = true /\ String.length sample_key = 44 /\
  extractAccessKeyFromInfNFeId (JStr ("NFe" ++ sample_key)) = Some sample_key.
Proof.
  split; [reflexivity|split; [reflexivity|]].
  apply extractAccessKey_roundtrip; reflexivity.
Defined.

Lemma parsed_accessKey_shape_witness :
  p_accessKey (parseNFe_tree no_infnfe_tree) = Some sample_key /\
  all_digits sample_key = true /\ 1 <= String.length sample_key <= 44 /\
  only_digits sample_key = sample_key.
Proof.
  split; [vm_compute; reflexivity|].
  apply (parsed_accessKey_shape no_infnfe_tree); vm_compute; reflexivity.
Defined.

Lemma validators_see_only_digits_witness :
  only_digits "529.982.247-25" = only_digits "52998224725" /\
  isValidCPF "529.982.247-25" = isValidCPF "52998224725" /\
  isValidCNPJ "529.982.247-25" = isValidCNPJ "52998224725" /\
  isValidCEP "529.982.247-25" = isValidCEP "52998224725".
Proof.
  split; [reflexivity|].
  apply validators_see_only_digits; reflexivity.
Defined.

Lemma isValidCPF_check_digit_change_witness :
  isValidCPF "52998224725" = true /\ ((10 =? 9) || (10 =? 10)) = true /\
  is_digit "6"%char = true /\
  (num_at (only_digits "52998224725") 10 =? nat_of_ascii "6"%char - 48) = false /\
  isValidCPF (set_char (only_digits "52998224725") 10 "6"%char) = false.
Proof.
  split; [vm_compute; reflexivity|]. split; [reflexivity|]. split; [reflexivity|].
  split; [vm_compute; reflexivity|].
  apply isValidCPF_check_digit_change; vm_compute; reflexivity.
Defined.

Lemma isValidCNPJ_check_digit_change_witness :
  isValidCNPJ "11222333000181" = true /\ ((13 =? 12) || (13 =? 13)) = true /\
  is_digit "2"%char = true /\
  (num_at (only_digits "11222333000181") 13 =? nat_of_ascii "2"%char - 48) = false /\
  isValidCNPJ (set_char (only_digits "11222333000181") 13 "2"%char) = false.
Proof.
  split; [vm_compute; reflexivity|]. split; [reflexivity|]. split; [reflexivity|].
  split; [vm_compute; reflexivity|].
  apply isValidCNPJ_check_digit_change; vm_compute; reflexivity.
Defined.

Lemma audit_error_codes_witness :
  exists r, auditXml (table_parser discount_match_xml discount_match_tree)
                     (xml_input discount_match_xml) = Normal r /\
    forall f, In f (findings r) -> severity f = SevError -> In (code f) error_codes.
Proof.
  eexists; split; [vm_compute; reflexivity|].
  apply (audit_error_codes (table_parser discount_match_xml discount_match_tree)
           (xml_input discount_match_xml)).
  vm_compute; reflexivity.
Defined.

Lemma auditXml_input_invalid_witness :
  ~ (exists fs s, xml_input "<NFe/>" = JObj fs /\ member (xml_input "<NFe/>") "xml" = JStr s /\
                  10 <= String.length s) /\
  exists r f, auditXml (table_parser discount_match_xml discount_match_tree) (xml_input "<NFe/>")
                = Normal r /\
    findings r = [f] /\ severity f = SevError /\ code f = "INPUT_INVALID" /\
    path f = Some "xml" /\ ok r = false /\ itemsCount (meta r) = 0 /\
    (forall parse', auditXml parse' (xml_input "<NFe/>") = Normal r).
Proof.
  assert (Hn : ~ (exists fs s, xml_input "<NFe/>" = JObj fs /\
                   member (xml_input "<NFe/>") "xml" = JStr s /\ 10 <= String.length s)).
  { intros (fs & s & _ & Hm & Hl). vm_compute in Hm. injection Hm as <-.
    cbn in Hl; lia. }
  split; [exact Hn|].
  apply (auditXml_input_invalid (table_parser discount_match_xml discount_match_tree)), Hn.
Defined.

Lemma audit_ok_certifies_witness :
  exists r, auditXml (table_parser complete_xml complete_tree) (xml_input complete_xml) = Normal r /\
  ok r = true /\
  exists xml raw,
    InputSchema_safeParse (xml_input complete_xml) = inr xml /\
    table_parser complete_xml complete_tree xml = Normal raw /\
    let p := parseNFe_tree raw in
    truthy (p_infNFe p) = true /\ p_det p <> [] /\
    truthy (p_ide p) = true /\ truthy (p_emit p) = true /\
    (truthy (nullish (member (p_emit p) "CNPJ") (member (p_emit p) "CPF")) = true ->
       doc_valid (nullish (member (p_emit p) "CNPJ") (member (p_emit p) "CPF")) = true) /\
    (forall k, p_accessKey p = Some k -> String.length (only_digits k) = 44 ->
       nfe_key_dv_spec (substring 0 43 (only_digits k)) = num_at (only_digits k) 43) /\
    (truthy (p_totals p) = true ->
       forall tot acc, t_vProd (declared_totals (p_totals p)) = Some tot ->
       sum_items (p_det p) zero_sums 0 = Normal acc ->
       exceeds_cent (round2 (num_sub (s_vProd (round_sums (fst acc))) tot)) = false) /\
    (forall d g q, In d (p_det p) -> get d "prod.qCom" = Normal g -> toNumber g = Some q ->
       num_le q (num_lit 0) = false).
Proof.
  eexists; split; [vm_compute; reflexivity|]. split; [vm_compute; reflexivity|].
  eapply (audit_ok_certifies (table_parser complete_xml complete_tree) (xml_input complete_xml));
    vm_compute; reflexivity.
Defined.

Lemma item_findings_locate_item_witness :
  exists fs, item_rules "SP" "RJ" 0 [item_10] = Normal fs /\
  forall f, In f fs -> exists i field rest,
    i < List.length [item_10] /\ In (code f, field) item_codes /\
    path f = Some (det_path i field) /\
    message f = ("Item " ++ nat_to_string (i + 1) ++ rest)%string.
Proof.
  eexists; split; [vm_compute; reflexivity|].
  apply (item_findings_locate_item "SP" "RJ" [item_10]).
  vm_compute; reflexivity.
Defined.

